(** * Portfolio website: the client-side interaction script (index.js)

    A shallow embedding of the six behaviour units of [src/index.js]
    (smooth scroll, scroll-spy, mobile menu, reveal animations, skill bars,
    contact form) and the properties the specification states about them.

    Conventions of the embedding.
    - Text that comes from the visitor or from the server (the values of the
      form fields, the status text, the parsed response) is a JavaScript
      string in full: a list of 16-bit code units ([Utf16.jsstring]),
      unpaired surrogates included.
    - Identifiers, attribute values and class names of the page, and the
      URLs the script builds, are Rocq [string]s: code units below 256.
    - A JavaScript number is a binary64 float ([PrimFloat.float]).
    - The DOM is explicit state: every handler is a function from the state
      it reads to the state it leaves, together with the list of effects it
      hands to the browser (scrolling, timers, network requests).
    - The elements the script looks up by id in the contact form are present,
      as the markup contract of the page requires. *)

From Stdlib Require Import String Ascii List ZArith Lia Bool PrimFloat.
From stdpp Require Import base strings list gmap.

Local Open Scope bool_scope.

(* ================================================================== *)
(** * Part I. The model                                                 *)
(* ================================================================== *)

(** ** Strings of the page *)

Module JSString.

(** Truthiness of a string: only the empty string is falsy. *)
Definition truthy (s : string) : bool :=
  match s with
  | EmptyString => false
  | String _ _ => true
  end.

(** [s.slice(1)]. *)
Definition slice1 (s : string) : string :=
  match s with
  | EmptyString => EmptyString
  | String _ r => r
  end.

(** The attribute selector [[href^="#"]]: the value starts with the prefix. *)
Definition startsWith (p s : string) : bool := String.prefix p s.

End JSString.

(** ** JavaScript strings: sequences of 16-bit code units *)

Module Utf16.

(** A code unit, as its high and its low byte. *)
Definition codeunit : Type := (ascii * ascii)%type.

Abbreviation jsstring := (list codeunit).

(** The number of a code unit, 0 to 65535. *)
Definition code (u : codeunit) : N :=
  (256 * N_of_ascii (fst u) + N_of_ascii (snd u))%N.

(** The code unit of a number below 65536. *)
Definition unitOf (n : N) : codeunit :=
  (ascii_of_N (n / 256), ascii_of_N (n mod 256)).

Definition eqb (u v : codeunit) : bool :=
  Ascii.eqb (fst u) (fst v) && Ascii.eqb (snd u) (snd v).

(** A character of U+0000 .. U+00FF as a code unit. *)
Definition latin1 (c : ascii) : codeunit := (Ascii.zero, c).

(** A string literal of the script whose characters are all below U+0100. *)
Definition lit (s : string) : jsstring := map latin1 (list_ascii_of_string s).

Definition inRange (lo hi : N) (u : codeunit) : bool :=
  ((lo <=? code u) && (code u <=? hi))%N.

(** ECMAScript [WhiteSpace] and [LineTerminator]: TAB, LF, VT, FF, CR, SP,
    NBSP, U+1680, U+2000 .. U+200A, LS, PS, U+202F, U+205F, U+3000 and the
    byte order mark U+FEFF.  [String.prototype.trim] strips this set, and
    it is the regular expression class [\s]. *)
Definition isWhiteSpace (u : codeunit) : bool :=
  let n := code u in
  inRange 9 13 u || (n =? 32)%N || (n =? 160)%N || (n =? 0x1680)%N
  || inRange 0x2000 0x200A u || (n =? 0x2028)%N || (n =? 0x2029)%N
  || (n =? 0x202F)%N || (n =? 0x205F)%N || (n =? 0x3000)%N
  || (n =? 0xFEFF)%N.

(** [String.prototype.trimStart]. *)
Fixpoint trimStart (s : jsstring) : jsstring :=
  match s with
  | [] => []
  | u :: r => if isWhiteSpace u then trimStart r else s
  end.

(** [String.prototype.trimEnd]. *)
Fixpoint trimEnd (s : jsstring) : jsstring :=
  match s with
  | [] => []
  | u :: r =>
      match trimEnd r with
      | [] => if isWhiteSpace u then [] else [u]
      | r' => u :: r'
      end
  end.

(** [String.prototype.trim]. *)
Definition trim (s : jsstring) : jsstring := trimEnd (trimStart s).

(** Truthiness of a string: only the empty string is falsy. *)
Definition truthy (s : jsstring) : bool :=
  match s with
  | [] => false
  | _ :: _ => true
  end.

(** [Array.prototype.join]. *)
Fixpoint join (sep : jsstring) (parts : list jsstring) : jsstring :=
  match parts with
  | [] => []
  | [p] => p
  | p :: rest => p ++ sep ++ join sep rest
  end.

(** Every code unit of the string satisfies the predicate. *)
Definition all (p : codeunit -> bool) (s : jsstring) : bool := forallb p s.

(** The number of occurrences of a code unit. *)
Definition count (u : codeunit) (s : jsstring) : nat :=
  length (List.filter (eqb u) s).

(** *** [encodeURIComponent] *)

(** The characters [encodeURIComponent] leaves alone:
    [A-Z a-z 0-9 - _ . ! ~ * ' ( )]. *)
Definition isUnreservedChar (c : ascii) : bool :=
  let n := N_of_ascii c in
  ((65 <=? n) && (n <=? 90))%N || ((97 <=? n) && (n <=? 122))%N
  || ((48 <=? n) && (n <=? 57))%N
  || existsb (Ascii.eqb c)
       ["-"; "_"; "."; "!"; "~"; "*"; "'"; "("; ")"]%char.

Definition isUnreserved (u : codeunit) : bool :=
  Ascii.eqb (fst u) Ascii.zero && isUnreservedChar (snd u).

(** Leading surrogates U+D800 .. U+DBFF, trailing ones U+DC00 .. U+DFFF. *)
Definition isHighSurrogate (u : codeunit) : bool := inRange 0xD800 0xDBFF u.

Definition isLowSurrogate (u : codeunit) : bool := inRange 0xDC00 0xDFFF u.

(** The code point of a surrogate pair. *)
Definition pairCodePoint (hi lo : codeunit) : N :=
  (0x10000 + (code hi - 0xD800) * 0x400 + (code lo - 0xDC00))%N.

(** UTF-8: one to four bytes for a code point. *)
Definition utf8 (v : N) : list ascii :=
  if (v <? 0x80)%N then [ascii_of_N v]
  else if (v <? 0x800)%N then
    [ascii_of_N (0xC0 + v / 0x40); ascii_of_N (0x80 + v mod 0x40)]
  else if (v <? 0x10000)%N then
    [ascii_of_N (0xE0 + v / 0x1000);
     ascii_of_N (0x80 + (v / 0x40) mod 0x40);
     ascii_of_N (0x80 + v mod 0x40)]
  else
    [ascii_of_N (0xF0 + v / 0x40000);
     ascii_of_N (0x80 + (v / 0x1000) mod 0x40);
     ascii_of_N (0x80 + (v / 0x40) mod 0x40);
     ascii_of_N (0x80 + v mod 0x40)].

Definition hexDigit (n : N) : ascii :=
  if (n <? 10)%N then ascii_of_N (48 + n) else ascii_of_N (55 + n).

(** One byte as [%XX] (upper-case hexadecimal). *)
Definition percentByte (b : ascii) : string :=
  String "%"
    (String (hexDigit (N_of_ascii b / 16))
       (String (hexDigit (N_of_ascii b mod 16)) EmptyString)).

(** The escape of a code point: its UTF-8 bytes, each as [%XX]. *)
Definition escape (v : N) : string :=
  fold_right (fun b acc => percentByte b +:+ acc) EmptyString (utf8 v).

(** [encodeURIComponent(s)]; [None] when it throws [URIError], which it
    does on a surrogate that is not half of a pair. *)
Fixpoint encodeURIComponent (s : jsstring) : option string :=
  match s with
  | [] => Some EmptyString
  | u :: rest =>
      if isUnreserved u
      then String (snd u) <$> encodeURIComponent rest
      else if isLowSurrogate u then None
      else if isHighSurrogate u
      then
        match rest with
        | v :: rest' =>
            if isLowSurrogate v
            then String.append (escape (pairCodePoint u v))
                   <$> encodeURIComponent rest'
            else None
        | [] => None
        end
      else String.append (escape (code u)) <$> encodeURIComponent rest
  end.

End Utf16.

(** ** Regular expressions

    The fragment of ECMAScript regular expressions the script uses:
    character classes, concatenation and [+].  Without the [u] flag a
    pattern matches code unit by code unit.  [RegExp.prototype.test] on a
    pattern anchored by [^] and [$] (no [m] flag) answers whether the whole
    input belongs to the language of the pattern; it is computed here with
    Brzozowski derivatives. *)

Module Regex.
Import Utf16.

Inductive regex : Type :=
| Void : regex
| Eps : regex
| Class : (codeunit -> bool) -> regex
| Cat : regex -> regex -> regex
| Alt : regex -> regex -> regex
| Star : regex -> regex.

(** [r+] *)
Definition Plus (r : regex) : regex := Cat r (Star r).

(** A literal character. *)
Definition Lit (u : codeunit) : regex := Class (eqb u).

Fixpoint nullable (r : regex) : bool :=
  match r with
  | Void => false
  | Eps => true
  | Class _ => false
  | Cat r1 r2 => nullable r1 && nullable r2
  | Alt r1 r2 => nullable r1 || nullable r2
  | Star _ => true
  end.

Fixpoint deriv (c : codeunit) (r : regex) : regex :=
  match r with
  | Void => Void
  | Eps => Void
  | Class p => if p c then Eps else Void
  | Cat r1 r2 =>
      if nullable r1 then Alt (Cat (deriv c r1) r2) (deriv c r2)
      else Cat (deriv c r1) r2
  | Alt r1 r2 => Alt (deriv c r1) (deriv c r2)
  | Star r1 => Cat (deriv c r1) (Star r1)
  end.

(** [/^r$/.test(s)] *)
Fixpoint test (r : regex) (s : jsstring) : bool :=
  match s with
  | [] => nullable r
  | c :: rest => test (deriv c r) rest
  end.

(** The language of a pattern. *)
Inductive matches : regex -> jsstring -> Prop :=
| MEps : matches Eps []
| MClass p c : p c = true -> matches (Class p) [c]
| MCat r1 r2 s1 s2 :
    matches r1 s1 -> matches r2 s2 -> matches (Cat r1 r2) (s1 ++ s2)
| MAltL r1 r2 s : matches r1 s -> matches (Alt r1 r2) s
| MAltR r1 r2 s : matches r2 s -> matches (Alt r1 r2) s
| MStarNil r : matches (Star r) []
| MStarCons r s1 s2 :
    matches r s1 -> matches (Star r) s2 -> matches (Star r) (s1 ++ s2).

End Regex.

(** ** F. Contact form: the e-mail validator *)

Module Email.
Import Utf16.

Definition at_sign : codeunit := latin1 "@".

Definition dot : codeunit := latin1 ".".

(** The class [[^\s@]]. *)
Definition notSpaceNorAt (c : codeunit) : bool :=
  negb (isWhiteSpace c || eqb c at_sign).

(** The pattern [/^[^\s@]+@[^\s@]+\.[^\s@]+$/]. *)
Definition emailPattern : Regex.regex :=
  Regex.Cat (Regex.Plus (Regex.Class notSpaceNorAt))
    (Regex.Cat (Regex.Lit at_sign)
       (Regex.Cat (Regex.Plus (Regex.Class notSpaceNorAt))
          (Regex.Cat (Regex.Lit dot)
             (Regex.Plus (Regex.Class notSpaceNorAt))))).

(** [isValidEmailAddress(email)] *)
Definition isValidEmailAddress (email : jsstring) : bool :=
  Regex.test emailPattern email.

(** A non-empty run of characters that are neither whitespace nor ['@']. *)
Definition atom (s : jsstring) : Prop :=
  s <> [] /\ all notSpaceNorAt s = true.

(** The characters of the string are neither whitespace nor ['@']. *)
Definition clean (s : jsstring) : Prop := all notSpaceNorAt s = true.

(** The string has a dot somewhere. *)
Definition containsDot (s : jsstring) : Prop :=
  exists a b, s = a ++ dot :: b.

(** The validator as the specification words it: a non-empty local part
    with no whitespace or ['@'], then ['@'], then a domain part, also free
    of whitespace and ['@'], that contains a dot. *)
Definition specAccepts (s : jsstring) : Prop :=
  exists l d, s = l ++ at_sign :: d /\ atom l /\ clean d /\ containsDot d.

(** What the pattern accepts: the dot of the domain part has a non-empty
    run on each side. *)
Definition patternAccepts (s : jsstring) : Prop :=
  exists l x y, s = l ++ at_sign :: x ++ dot :: y /\ atom l /\ atom x /\ atom y.

End Email.

(** ** The document *)

Module DOM.

(** What the script reads of an element found by id: [offsetTop] and
    [getBoundingClientRect().top]. *)
Record Element : Type := mkElement {
  offsetTop : float;
  rectTop : float
}.

(** [document.getElementById]: the elements of the page by id. *)
Abbreviation Document := (gmap string Element).

(** What the script reads of [window]. *)
Record Window : Type := mkWindow {
  pageYOffset : float;
  innerHeight : float
}.

End DOM.

(** ** C. Mobile menu *)

Module MobileMenu.

Record Button : Type := mkButton {
  ariaExpanded : string;
  ariaLabel : string
}.

Record Panel : Type := mkPanel {
  isOpen : bool;          (* class "is-open" *)
  ariaHidden : string
}.

(** The two module-level references; [None] is an element the page lacks. *)
Record Menu : Type := mkMenu {
  hamburgerButton : option Button;
  mobileMenuPanel : option Panel
}.

Definition openMobileMenu (m : Menu) : Menu :=
  match mobileMenuPanel m, hamburgerButton m with
  | Some _, Some _ =>
      {| hamburgerButton := Some (mkButton "true" "Close navigation menu");
         mobileMenuPanel := Some (mkPanel true "false") |}
  | _, _ => m
  end.

Definition closeMobileMenu (m : Menu) : Menu :=
  match mobileMenuPanel m, hamburgerButton m with
  | Some _, Some _ =>
      {| hamburgerButton := Some (mkButton "false" "Open navigation menu");
         mobileMenuPanel := Some (mkPanel false "true") |}
  | _, _ => m
  end.

(** The panel carries the class "is-open". *)
Definition panelOpen (m : Menu) : bool :=
  match mobileMenuPanel m with
  | Some p => isOpen p
  | None => false
  end.

End MobileMenu.

(** ** A. Smooth-scroll navigation *)

Module SmoothScroll.
Import DOM MobileMenu.

(** A node on the way from the click target up to the root: its tag name
    (lower case) and its [href] attribute. *)
Record Node : Type := mkNode {
  tagName : string;
  href : option string
}.

(** The selector [a[href^="#"]]. *)
Definition matchesSelector (n : Node) : bool :=
  String.eqb (tagName n) "a"
  && match href n with
     | Some h => JSString.startsWith "#" h
     | None => false
     end.

(** [event.target.closest(selector)]: the path lists the target first, then
    its ancestors. *)
Definition closest (path : list Node) : option Node := find matchesSelector path.

(** The page as the click handler reads it. *)
Record Page : Type := mkPage {
  document : Document;
  siteNav : option float;     (* offsetHeight of ".site-nav" *)
  window : Window
}.

Inductive Effect : Type :=
| PreventDefault : Effect
| ScrollTo (top : float) (behavior : string) : Effect.

(** The click listener of [initSmoothScroll]. *)
Definition onClick (page : Page) (menu : Menu) (path : list Node)
  : list Effect * Menu :=
  match closest path with
  | None => ([], menu)
  | Some anchor =>
      match href anchor with
      | None => ([], menu)
      | Some targetHash =>
          if negb (JSString.truthy targetHash) || String.eqb targetHash "#"
          then ([], menu)
          else
            let targetSectionId := JSString.slice1 targetHash in
            match document page !! targetSectionId with
            | None => ([], menu)
            | Some targetSection =>
                let navHeight :=
                  match siteNav page with
                  | Some h => h
                  | None => 0%float
                  end in
                let sectionTop :=
                  (rectTop targetSection + pageYOffset (window page))%float in
                let scrollDestination :=
                  (sectionTop - navHeight - 8)%float in
                ([PreventDefault; ScrollTo scrollDestination "smooth"],
                 closeMobileMenu menu)
            end
      end
  end.

(** The nearest enclosing hyperlink of the click target: the first [a]
    element with an [href] on the path. *)
Definition isHyperlink (n : Node) : bool :=
  String.eqb (tagName n) "a"
  && match href n with
     | Some _ => true
     | None => false
     end.

Definition nearestHyperlink (path : list Node) : option Node :=
  find isHyperlink path.

Definition scrolls (effects : list Effect) : list float :=
  flat_map (fun e => match e with ScrollTo t _ => [t] | PreventDefault => [] end)
    effects.

Definition defaultPrevented (effects : list Effect) : bool :=
  existsb (fun e => match e with PreventDefault => true | _ => false end) effects.

End SmoothScroll.

(** ** B. Scroll-spy *)

Module ScrollSpy.
Import DOM.

Definition SECTION_IDS : list string :=
  ["home"; "about"; "projects"; "skills"; "contact"].

(** The literal [0.4], as binary64 rounds it. *)
Definition point4 : float := 0x1.999999999999ap-2%float.

Record NavLink : Type := mkNavLink {
  dataSection : string;
  isActive : bool;                (* class "is-active" *)
  ariaCurrent : option string
}.

Definition highlightActiveSection (activeSectionId : string)
  (allNavLinks : list NavLink) : list NavLink :=
  map (fun link =>
         let matches := String.eqb (dataSection link) activeSectionId in
         {| dataSection := dataSection link;
            isActive := matches;
            ariaCurrent := if matches then Some "page" else None |})
    allNavLinks.

Definition triggerLineY (w : Window) : float :=
  (pageYOffset w + innerHeight w * point4)%float.

(** A section that exists and whose top is at or above the line. *)
Definition reached (doc : Document) (line : float) (sectionId : string) : bool :=
  match doc !! sectionId with
  | Some sectionElement => (offsetTop sectionElement <=? line)%float
  | None => false
  end.

(** The walk of a list that keeps the last element passing a test. *)
Definition keepLast {A : Type} (p : A -> bool) (current x : A) : A :=
  if p x then x else current.

Definition detectActiveSection (doc : Document) (w : Window) : string :=
  if (pageYOffset w <? 80)%float then "home"
  else
    let line := triggerLineY w in
    fold_left (keepLast (reached doc line)) SECTION_IDS
      (default "undefined" (SECTION_IDS !! 0%nat)).

(** One evaluation of the scroll position, as run at start-up, on [load]
    and in every animation frame that follows a scroll. *)
Definition evaluate (doc : Document) (w : Window) (links : list NavLink)
  : list NavLink :=
  highlightActiveSection (detectActiveSection doc w) links.

(** The number of links that carry the active indicator. *)
Definition activeCount (links : list NavLink) : nat :=
  length (List.filter isActive links).

(** The number of links of a section. *)
Definition linksOf (sectionId : string) (links : list NavLink) : nat :=
  length (List.filter (fun l => String.eqb (dataSection l) sectionId) links).

End ScrollSpy.

(** ** D. Scroll reveal animations *)

Module Reveal.

(** An element of [revealElements]: the class "is-revealed", and whether the
    intersection observer currently watches it. *)
Record Element : Type := mkElement {
  isRevealed : bool;
  observed : bool
}.

(** The elements, by their position in [revealElements]. *)
Abbreviation State := (list Element).

(** An [IntersectionObserverEntry]. *)
Record Entry : Type := mkEntry {
  target : nat;
  isIntersecting : bool
}.

(** [classList.add("is-revealed")] *)
Definition addRevealed (el : Element) : Element :=
  {| isRevealed := true; observed := observed el |}.

(** [revealObserver.observe(el)] and [revealObserver.unobserve(el)] *)
Definition setObserved (b : bool) (el : Element) : Element :=
  {| isRevealed := isRevealed el; observed := b |}.

(** Start-up: without "js-io-ready" every element is revealed at once,
    otherwise every element is put under observation. *)
Definition init (ioReady : bool) (revealElements : State) : State :=
  if negb ioReady then map addRevealed revealElements
  else map (setObserved true) revealElements.

(** The body of the observer callback, for one entry. *)
Definition deliver (st : State) (entry : Entry) : State :=
  if isIntersecting entry
  then alter (setObserved false) (target entry)
         (alter addRevealed (target entry) st)
  else st.

(** The observer callback: [entries.forEach]. *)
Definition callback (entries : list Entry) (st : State) : State :=
  fold_left deliver entries st.

(** The element at a position has fired: it is revealed and no longer
    observed. *)
Definition fired (st : State) (i : nat) : Prop :=
  forall el, st !! i = Some el -> el = mkElement true false.

(** The "revealed" flag of the element at a position. *)
Definition revealedAt (st : State) (i : nat) : bool :=
  match st !! i with
  | Some el => isRevealed el
  | None => false
  end.

End Reveal.

(** ** E. Skill bar fill animations *)

Module SkillBars.

Record Bar : Type := mkBar {
  fillWidth : option string;     (* attribute data-fill-width *)
  styleWidth : string            (* style.width *)
}.

(** A pending [setTimeout]: set the width of the bar at an index. *)
Record Timer : Type := mkTimer {
  bar : nat;
  width : string;
  delay : nat
}.

Record State : Type := mkState {
  bars : list Bar;
  hasAnimated : bool;
  observing : bool;              (* the observer watches the skills section *)
  timers : list Timer
}.

(** [null + "%"] is ["null%"]. *)
Definition attributeText (a : option string) : string :=
  match a with
  | Some v => v
  | None => "null"
  end.

(** [fillBars]: one timer per bar, 80 ms apart. *)
Definition fillBars (st : State) : State :=
  {| bars := bars st;
     hasAnimated := hasAnimated st;
     observing := observing st;
     timers :=
       timers st
       ++ imap (fun index b =>
                  mkTimer index (attributeText (fillWidth b) +:+ "%") (index * 80))
            (bars st) |}.

Definition setHasAnimated (b : bool) (st : State) : State :=
  {| bars := bars st; hasAnimated := b; observing := observing st;
     timers := timers st |}.

Definition setObserving (b : bool) (st : State) : State :=
  {| bars := bars st; hasAnimated := hasAnimated st; observing := b;
     timers := timers st |}.

(** Start-up of [initSkillBarAnimations] on a page that has the skills
    section. *)
Definition init (ioReady : bool) (pageBars : list Bar) : State :=
  let st := mkState pageBars false false [] in
  if negb ioReady then fillBars st else setObserving true st.

(** The body of the observer callback, for one entry; every entry is about
    the skills section, so an entry is its [isIntersecting] flag. *)
Definition deliver (st : State) (isIntersecting : bool) : State :=
  if isIntersecting && negb (hasAnimated st)
  then setObserving false (fillBars (setHasAnimated true st))
  else st.

(** The observer callback: [entries.forEach]. *)
Definition callback (entries : list bool) (st : State) : State :=
  fold_left deliver entries st.

End SkillBars.

(** ** F. Contact form *)

Module ContactForm.
Import Utf16.

Definition SENTINEL : string := "YOUR_FORM_ID".

(** The constant as the repository ships it. *)
Definition FORMSPREE_FORM_ID : string := "YOUR_FORM_ID".

Definition FORMSPREE_ENDPOINT (formId : string) : string :=
  "https://formspree.io/f/" +:+ formId.

Inductive Field : Type := Name | Email | Subject | Message.

Record Input : Type := mkInput {
  value : jsstring;
  fieldError : bool            (* class "field-error" *)
}.

(** The elements of the form the handler touches. *)
Record Form : Type := mkForm {
  nameField : Input;
  emailField : Input;
  subjectField : Input;
  messageField : Input;
  statusText : jsstring;       (* statusEl.textContent *)
  statusClass : string;        (* statusEl.className *)
  submitDisabled : bool;       (* submitButton.disabled *)
  submitLabel : jsstring       (* text of ".form-submit-btn__label" *)
}.

Definition field (fld : Field) (f : Form) : Input :=
  match fld with
  | Name => nameField f
  | Email => emailField f
  | Subject => subjectField f
  | Message => messageField f
  end.

Definition setField (fld : Field) (i : Input) (f : Form) : Form :=
  match fld with
  | Name =>
      mkForm i (emailField f) (subjectField f) (messageField f)
        (statusText f) (statusClass f) (submitDisabled f) (submitLabel f)
  | Email =>
      mkForm (nameField f) i (subjectField f) (messageField f)
        (statusText f) (statusClass f) (submitDisabled f) (submitLabel f)
  | Subject =>
      mkForm (nameField f) (emailField f) i (messageField f)
        (statusText f) (statusClass f) (submitDisabled f) (submitLabel f)
  | Message =>
      mkForm (nameField f) (emailField f) (subjectField f) i
        (statusText f) (statusClass f) (submitDisabled f) (submitLabel f)
  end.

(** The texts the script shows. *)
Definition ellipsis : codeunit := unitOf 0x2026.

Definition textInvalid : jsstring := lit "Please fill in all fields correctly.".

Definition textOpening : jsstring := lit "Opening your email client" ++ [ellipsis].

Definition textSending : jsstring := lit "Sending" ++ [ellipsis].

Definition textSent : jsstring :=
  unitOf 0x2713 :: lit " Message sent " ++ unitOf 0x2014 :: lit " I'll reply soon!".

Definition textGeneric : jsstring :=
  lit "Something went wrong. Please try again.".

Definition textNetwork : jsstring :=
  lit "Network error. Please email hello@mdkportfolio.dev directly.".

Definition textSend : jsstring := lit "Send message".

(** The body of the request: the object given to [JSON.stringify], as its
    keys and values in order. *)
Record Request : Type := mkRequest {
  url : string;
  method : string;
  headers : list (string * string);
  body : list (string * jsstring)
}.

(** What the handler hands to the browser. *)
Inductive Effect : Type :=
| PreventDefault : Effect
| ClearFieldErrorAfter (fld : Field) (ms : nat) : Effect   (* setTimeout *)
| AnchorAppended (href display : string) : Effect
| AnchorClicked (href : string) : Effect
| AnchorRemoved (href : string) : Effect
| Fetch (r : Request) : Effect.

(** How a handler ends: it returns, or an exception leaves it. *)
Inductive Completion : Type :=
| Returned : Completion
| Threw (error : string) : Completion.

(** *** Handlers as state transformers that log their effects *)

Definition Action (A : Type) : Type := Form -> A * Form * list Effect.

#[export] Instance action_ret : MRet Action :=
  fun A (a : A) f => (a, f, []).

#[export] Instance action_bind : MBind Action :=
  fun A B (k : A -> Action B) (m : Action A) f =>
    let '(a, f1, e1) := m f in
    let '(b, f2, e2) := k a f1 in
    (b, f2, e1 ++ e2).

Definition emit (e : Effect) : Action unit := fun f => (tt, f, [e]).

Definition modify (g : Form -> Form) : Action unit := fun f => (tt, g f, []).

Definition getValue (fld : Field) : Action jsstring :=
  fun f => (value (field fld f), f, []).

Definition setValue (fld : Field) (v : jsstring) : Action unit :=
  modify (fun f => setField fld (mkInput v (fieldError (field fld f))) f).

Definition setFieldError (fld : Field) (b : bool) : Action unit :=
  modify (fun f => setField fld (mkInput (value (field fld f)) b) f).

Definition setDisabled (b : bool) : Action unit :=
  modify (fun f =>
            mkForm (nameField f) (emailField f) (subjectField f) (messageField f)
              (statusText f) (statusClass f) b (submitLabel f)).

Definition setLabel (s : jsstring) : Action unit :=
  modify (fun f =>
            mkForm (nameField f) (emailField f) (subjectField f) (messageField f)
              (statusText f) (statusClass f) (submitDisabled f) s).

(** [applyFieldError(inputElement)] *)
Definition applyFieldError (fld : Field) : Action unit :=
  setFieldError fld true ;;
  emit (ClearFieldErrorAfter fld 600).

(** [updateFormStatus(message, type)] *)
Definition updateFormStatus (message : jsstring) (type : string) : Action unit :=
  modify (fun f =>
            mkForm (nameField f) (emailField f) (subjectField f) (messageField f)
              message
              ("form-status-message"
               +:+ (if JSString.truthy type
                    then " form-status-message--" +:+ type
                    else EmptyString))
              (submitDisabled f) (submitLabel f)).

Definition newline : jsstring := [unitOf 10].

(** The body of the mail. *)
Definition mailtoBody (nameValue emailValue messageValue : jsstring) : jsstring :=
  join newline
    [messageValue; []; lit "---";
     lit "From: " ++ nameValue ++ lit " <" ++ emailValue ++ lit ">"].

(** The [mailto:] target of the fallback; [None] when one of the two calls
    of [encodeURIComponent] throws. *)
Definition mailtoHref (nameValue emailValue subjectValue messageValue : jsstring)
  : option string :=
  subject ← encodeURIComponent subjectValue;
  body ← encodeURIComponent (mailtoBody nameValue emailValue messageValue);
  Some ("mailto:hello@mdkportfolio.dev"
        +:+ "?subject=" +:+ subject
        +:+ "&body=" +:+ body).

Definition request (formId : string)
  (nameValue emailValue subjectValue messageValue : jsstring) : Request :=
  {| url := FORMSPREE_ENDPOINT formId;
     method := "POST";
     headers := [("Accept", "application/json");
                 ("Content-Type", "application/json")];
     body := [("name", nameValue); ("email", emailValue);
              ("subject", subjectValue); ("message", messageValue)] |}.

(** The [submit] listener, up to the point where [fetch] has been called. *)
Definition onSubmit (formId : string) : Action Completion :=
  emit PreventDefault ;;
  nameValue ← getValue Name;
  let nameValue := trim nameValue in
  emailValue ← getValue Email;
  let emailValue := trim emailValue in
  subjectValue ← getValue Subject;
  let subjectValue := trim subjectValue in
  messageValue ← getValue Message;
  let messageValue := trim messageValue in
  updateFormStatus [] EmptyString ;;
  let formIsValid := true in
  formIsValid ←
    (if negb (truthy nameValue)
     then applyFieldError Name ;; mret false
     else mret formIsValid);
  formIsValid ←
    (if negb (Email.isValidEmailAddress emailValue)
     then applyFieldError Email ;; mret false
     else mret formIsValid);
  formIsValid ←
    (if negb (truthy subjectValue)
     then applyFieldError Subject ;; mret false
     else mret formIsValid);
  formIsValid ←
    (if negb (truthy messageValue)
     then applyFieldError Message ;; mret false
     else mret formIsValid);
  if negb formIsValid
  then
    updateFormStatus textInvalid "error" ;;
    mret Returned
  else if String.eqb formId SENTINEL
  then
    match mailtoHref nameValue emailValue subjectValue messageValue with
    | None => mret (Threw "URIError")
    | Some href =>
        emit (AnchorAppended href "none") ;;
        emit (AnchorClicked href) ;;
        emit (AnchorRemoved href) ;;
        updateFormStatus textOpening "success" ;;
        mret Returned
    end
  else
    setDisabled true ;;
    setLabel textSending ;;
    emit (Fetch (request formId nameValue emailValue subjectValue messageValue)) ;;
    mret Returned.

(** *** The response *)

(** A settled promise. *)
Inductive Settled (A : Type) : Type :=
| Fulfilled (a : A) : Settled A
| Rejected : Settled A.
Arguments Fulfilled {A} a.
Arguments Rejected {A}.

Definition andThen {A B} (p : Settled A) (k : A -> Settled B) : Settled B :=
  match p with
  | Fulfilled a => k a
  | Rejected => Rejected
  end.

(** A JavaScript value as the handler uses it: whether it is truthy, and
    the string it turns into when it is written to [textContent]
    ([ToString]), [None] when that conversion throws.  So ["x"] is
    (true, "x"), [42] is (true, "42"), [[]] is (true, the empty string),
    [{}] is (true, "[object Object]"), an object parsed from
    [{"toString": 1}], whose [toString] cannot be called, is (true, [None]),
    and a missing property is (false, "undefined"). *)
Record JSValue : Type := mkJSValue {
  isTruthy : bool;
  asText : option jsstring
}.

(** A string as a value. *)
Definition stringValue (s : jsstring) : JSValue := mkJSValue (truthy s) (Some s).

(** The parsed body, as far as the handler looks into it: a falsy value
    ([null], [false], [0], the empty string), or a truthy value with what
    reading its [error] property gives. *)
Inductive Data : Type :=
| DataFalsy : Data
| DataTruthy (error : JSValue) : Data.

Record Response : Type := mkResponse {
  ok : bool;
  json : Settled Data        (* what [response.json()] settles to *)
}.

Record Result : Type := mkResult {
  httpOk : bool;
  data : Data
}.

(** The first [then]: parse the body and attach the [ok] flag. *)
Definition parseResponse (response : Response) : Settled Result :=
  andThen (json response) (fun d => Fulfilled (mkResult (ok response) d)).

(** [result.data && result.data.error ? result.data.error : generic] *)
Definition serverErrorOf (d : Data) : JSValue :=
  match d with
  | DataTruthy e => if isTruthy e then e else stringValue textGeneric
  | DataFalsy => stringValue textGeneric
  end.

(** The second [then].  Writing the server's error to [textContent] turns
    it into a string; when that throws, the callback stops there. *)
Definition onResult (result : Result) : Action Completion :=
  setDisabled false ;;
  setLabel textSend ;;
  if httpOk result
  then
    updateFormStatus textSent "success" ;;
    setValue Name [] ;;
    setValue Email [] ;;
    setValue Subject [] ;;
    setValue Message [] ;;
    mret Returned
  else
    let serverError := serverErrorOf (data result) in
    match asText serverError with
    | Some message => updateFormStatus message "error" ;; mret Returned
    | None => mret (Threw "TypeError")
    end.

(** The [catch]. *)
Definition onNetworkError : Action unit :=
  setDisabled false ;;
  setLabel textSend ;;
  updateFormStatus textNetwork "error".

(** The promise chain, run when [fetch] settles: the [catch] runs when
    [fetch] rejects, when [response.json()] rejects, and when the second
    [then] throws. *)
Definition onSettled (outcome : Settled Response) : Action unit :=
  match andThen outcome parseResponse with
  | Fulfilled result =>
      completion ← onResult result;
      match completion with
      | Returned => mret tt
      | Threw _ => onNetworkError
      end
  | Rejected => onNetworkError
  end.

(** *** Reading the outcome of a handler *)

Definition formAfter {A} (m : Action A) (f : Form) : Form := snd (fst (m f)).

Definition effectsOf {A} (m : Action A) (f : Form) : list Effect := snd (m f).

Definition completionOf {A} (m : Action A) (f : Form) : A := fst (fst (m f)).

Definition isMailto (e : Effect) : bool :=
  match e with
  | AnchorClicked _ => true
  | _ => false
  end.

Definition isFetch (e : Effect) : bool :=
  match e with
  | Fetch _ => true
  | _ => false
  end.

Definition mailtoActions (es : list Effect) : nat := length (List.filter isMailto es).

Definition networkRequests (es : list Effect) : nat := length (List.filter isFetch es).

(** The value of a field as the handler collects it. *)
Definition trimmed (fld : Field) (f : Form) : jsstring :=
  trim (value (field fld f)).

Definition values (f : Form) : jsstring * jsstring * jsstring * jsstring :=
  (value (nameField f), value (emailField f),
   value (subjectField f), value (messageField f)).

(** Validity of one field, as the handler tests it. *)
Definition fieldValid (fld : Field) (f : Form) : bool :=
  match fld with
  | Email => Email.isValidEmailAddress (trim (value (emailField f)))
  | _ => truthy (trim (value (field fld f)))
  end.

Definition allValid (f : Form) : bool :=
  fieldValid Name f && fieldValid Email f && fieldValid Subject f
  && fieldValid Message f.

(** The timers an invalid submission sets, one per invalid field. *)
Definition errorTimers (f : Form) : list Effect :=
  flat_map (fun fld => if fieldValid fld f then []
                       else [ClearFieldErrorAfter fld 600])
    [Name; Email; Subject; Message].

(** *** The life of the page around the form *)

Record Page : Type := mkPage {
  form : Form;
  inFlight : nat             (* requests sent and not yet settled *)
}.

Inductive Event : Type :=
| UserTypes (fld : Field) (text : jsstring) : Event
| SubmitEvent : Event
| ErrorTimerDue (fld : Field) : Event
| FetchSettles (outcome : Settled Response) : Event.

(** One turn of the event loop; [None] when the event cannot occur (a
    response with no request in flight). *)
Definition step (formId : string) (ev : Event) (p : Page) : option Page :=
  match ev with
  | UserTypes fld text =>
      Some (mkPage (formAfter (setValue fld text) (form p)) (inFlight p))
  | SubmitEvent =>
      Some (mkPage (formAfter (onSubmit formId) (form p))
              (inFlight p + networkRequests (effectsOf (onSubmit formId) (form p))))
  | ErrorTimerDue fld =>
      Some (mkPage (formAfter (setFieldError fld false) (form p)) (inFlight p))
  | FetchSettles outcome =>
      match inFlight p with
      | O => None
      | S n => Some (mkPage (formAfter (onSettled outcome) (form p)) n)
      end
  end.

Fixpoint run (formId : string) (evs : list Event) (p : Page) : option Page :=
  match evs with
  | [] => Some p
  | ev :: rest =>
      match step formId ev p with
      | Some p' => run formId rest p'
      | None => None
      end
  end.

(** The control is disabled only while a request is in flight. *)
Definition enabledAtIdle (p : Page) : Prop :=
  submitDisabled (form p) = true -> 0 < inFlight p.

End ContactForm.

(** ** Pages used as examples *)

Module Examples.

(** Three sections at 0, 800 and 1600. *)
Definition exampleDocument : DOM.Document :=
  <["home" := DOM.mkElement 0 0]>
    (<["about" := DOM.mkElement 800 800]>
       (<["projects" := DOM.mkElement 1600 1600]> ∅)).

(** A desktop and a mobile navigation, each with a link per section. *)
Definition twoNavigations : list ScrollSpy.NavLink :=
  [ ScrollSpy.mkNavLink "home" false None;
    ScrollSpy.mkNavLink "about" false None;
    ScrollSpy.mkNavLink "home" false None;
    ScrollSpy.mkNavLink "about" false None ].

(** A page scrolled to the top with a navigation bar 64 high. *)
Definition examplePage : SmoothScroll.Page :=
  SmoothScroll.mkPage exampleDocument (Some 64%float) (DOM.mkWindow 0 1000).

(** An open mobile menu. *)
Definition openMenu : MobileMenu.Menu :=
  MobileMenu.mkMenu
    (Some (MobileMenu.mkButton "true" "Close navigation menu"))
    (Some (MobileMenu.mkPanel true "false")).

(** A click on an icon inside the link to the "about" section. *)
Definition aboutLink : SmoothScroll.Node := SmoothScroll.mkNode "a" (Some "#about").

Definition clickOnIcon : list SmoothScroll.Node :=
  [ SmoothScroll.mkNode "svg" None; aboutLink;
    SmoothScroll.mkNode "nav" None; SmoothScroll.mkNode "body" None ].

(** A form at rest. *)
Definition formOf (name email subject message : Utf16.jsstring)
  : ContactForm.Form :=
  ContactForm.mkForm
    (ContactForm.mkInput name false) (ContactForm.mkInput email false)
    (ContactForm.mkInput subject false) (ContactForm.mkInput message false)
    [] "form-status-message" false ContactForm.textSend.

Definition formWith (name email subject message : string) : ContactForm.Form :=
  formOf (Utf16.lit name) (Utf16.lit email) (Utf16.lit subject)
    (Utf16.lit message).

Definition filledForm : ContactForm.Form :=
  formWith " Ada " "ada@example.org" "Hello" "Nice site. ".

Definition halfFilledForm : ContactForm.Form :=
  formWith "Ada" "ada@example" EmptyString "Nice site.".

(** A subject that ends with the first half of a surrogate pair (an emoji
    cut in two). *)
Definition cutSubject : Utf16.jsstring :=
  Utf16.lit "Hello " ++ [Utf16.unitOf 0xD83D].

Definition cutForm : ContactForm.Form :=
  formOf (Utf16.lit "Ada") (Utf16.lit "ada@example.org") cutSubject
    (Utf16.lit "Nice site.").

(** The page at rest, the form filled in. *)
Definition idlePage : ContactForm.Page := ContactForm.mkPage filledForm 0.

(** A form id as Formspree hands them out. *)
Definition configuredId : string := "xabcdefg".

End Examples.

(** ** C. Mobile menu: the listeners of [initMobileMenu] *)

Module MenuListeners.
Import MobileMenu.

(** [initMobileMenu] installs its two listeners only when both elements
    exist. *)
Definition installed (m : Menu) : bool :=
  match hamburgerButton m, mobileMenuPanel m with
  | Some _, Some _ => true
  | _, _ => false
  end.

Inductive Effect : Type :=
| FocusHamburger : Effect.          (* hamburgerButton.focus() *)

(** The click listener of the hamburger button. *)
Definition onHamburgerClick (m : Menu) : Menu :=
  if installed m
  then
    let isCurrentlyOpen := panelOpen m in
    if isCurrentlyOpen then closeMobileMenu m else openMobileMenu m
  else m.

(** The [keydown] listener of the document. *)
Definition onKeydown (key : string) (m : Menu) : Menu * list Effect :=
  if installed m
  then
    if String.eqb key "Escape" && panelOpen m
    then (closeMobileMenu m, [FocusHamburger])
    else (m, [])
  else (m, []).

(** What can happen to the menu: the two listeners, and the calls of
    [openMobileMenu] and [closeMobileMenu] from elsewhere in the script. *)
Inductive Event : Type :=
| HamburgerClick : Event
| Keydown (key : string) : Event
| OpenCall : Event
| CloseCall : Event.

Definition step (m : Menu) (ev : Event) : Menu :=
  match ev with
  | HamburgerClick => onHamburgerClick m
  | Keydown key => fst (onKeydown key m)
  | OpenCall => openMobileMenu m
  | CloseCall => closeMobileMenu m
  end.

Definition run (events : list Event) (m : Menu) : Menu :=
  fold_left step events m.

(** The panel and the button tell the same story: open panel, not hidden,
    button expanded and labelled "Close"; or the reverse. *)
Definition agree (m : Menu) : Prop :=
  match hamburgerButton m, mobileMenuPanel m with
  | Some b, Some p =>
      (isOpen p = true /\ ariaHidden p = "false"
       /\ ariaExpanded b = "true" /\ ariaLabel b = "Close navigation menu")
      \/ (isOpen p = false /\ ariaHidden p = "true"
          /\ ariaExpanded b = "false" /\ ariaLabel b = "Open navigation menu")
  | _, _ => True
  end.

End MenuListeners.

(** ** B. Scroll-spy: the scroll listener and its animation frame *)

Module ScrollThrottle.
Import DOM ScrollSpy.

Record Spy : Type := mkSpy {
  rafScheduled : bool;
  allNavLinks : list NavLink;
  framesPending : nat        (* callbacks handed to requestAnimationFrame *)
}.

(** What the page looks like when a callback runs. *)
Record Layout : Type := mkLayout {
  layoutDocument : Document;
  layoutWindow : Window
}.

(** Start-up of [initScrollSpy]: the flag is false, the links are evaluated
    once. *)
Definition init (l : Layout) (links : list NavLink) : Spy :=
  mkSpy false (evaluate (layoutDocument l) (layoutWindow l) links) 0.

(** The [scroll] listener. *)
Definition onScroll (s : Spy) : Spy :=
  if negb (rafScheduled s)
  then mkSpy true (allNavLinks s) (S (framesPending s))
  else s.

(** The callback given to [requestAnimationFrame]. *)
Definition onFrame (l : Layout) (s : Spy) : Spy :=
  mkSpy false (evaluate (layoutDocument l) (layoutWindow l) (allNavLinks s))
    (pred (framesPending s)).

(** The [load] listener. *)
Definition onLoad (l : Layout) (s : Spy) : Spy :=
  mkSpy (rafScheduled s)
    (evaluate (layoutDocument l) (layoutWindow l) (allNavLinks s))
    (framesPending s).

Inductive Event : Type :=
| Scroll : Event
| Frame (l : Layout) : Event
| Load (l : Layout) : Event.

(** One turn of the event loop; a frame callback runs only if one was
    requested. *)
Definition step (ev : Event) (s : Spy) : option Spy :=
  match ev with
  | Scroll => Some (onScroll s)
  | Frame l =>
      match framesPending s with
      | O => None
      | S _ => Some (onFrame l s)
      end
  | Load l => Some (onLoad l s)
  end.

Fixpoint run (events : list Event) (s : Spy) : option Spy :=
  match events with
  | [] => Some s
  | ev :: rest =>
      match step ev s with
      | Some s' => run rest s'
      | None => None
      end
  end.

(** The flag is up exactly when one callback is waiting, and no more than
    one ever is. *)
Definition coalesced (s : Spy) : Prop :=
  framesPending s = if rafScheduled s then 1 else 0.

End ScrollThrottle.

(** ** Counting characters *)

Module Text.

(** The number of occurrences of a character in a string. *)
Fixpoint count (c : ascii) (s : string) : nat :=
  match s with
  | EmptyString => 0
  | String d r => (if Ascii.eqb d c then 1 else 0) + count c r
  end.

(** Every character of the string satisfies the predicate. *)
Fixpoint all (p : ascii -> bool) (s : string) : bool :=
  match s with
  | EmptyString => true
  | String c r => p c && all p r
  end.

(** The characters [encodeURIComponent] can produce: the unreserved ones
    and the percent sign of an escape. *)
Definition isUriSafe (c : ascii) : bool :=
  Utf16.isUnreservedChar c || Ascii.eqb c "%"%char.

(** Whitespace among the characters below U+0100. *)
Definition isSpace (c : ascii) : bool := Utf16.isWhiteSpace (Utf16.latin1 c).

End Text.

(** ** F. Contact form: reading outcomes and timers *)

Module FormOutcome.
Import ContactForm.

(** The response carries the [ok] flag and a body that parses. *)
Definition isParsedOk (outcome : Settled Response) : bool :=
  match outcome with
  | Fulfilled (mkResponse true (Fulfilled _)) => true
  | _ => false
  end.

(** The events that the timers among the effects will raise. *)
Definition timerEvents (effects : list Effect) : list Event :=
  flat_map (fun e => match e with
                     | ClearFieldErrorAfter fld _ => [ErrorTimerDue fld]
                     | _ => []
                     end) effects.

(** No field carries the error class. *)
Definition noFieldError (f : Form) : Prop :=
  forall fld, fieldError (field fld f) = false.

End FormOutcome.

(** ** D. Reveal animations: what the observer still watches *)

Module RevealWatch.
Import Reveal.

(** Every element is revealed, or still watched. *)
Definition notStranded (st : State) : Prop :=
  forall i el, st !! i = Some el -> isRevealed el = true \/ observed el = true.

End RevealWatch.


(* ================================================================== *)
(** * Part II. Properties                                               *)
(* ================================================================== *)

(** ** Strings *)

Module StringFacts.
Import Utf16.

(** A concatenation that starts with [c]: either the left part is empty,
    or it starts with [c] itself. *)
Lemma app_eq_cons (s t : jsstring) (c : codeunit) (u : jsstring) :
  s ++ t = c :: u ->
  (s = [] /\ t = c :: u) \/ (exists s', s = c :: s' /\ u = s' ++ t).
Proof.
  destruct s as [|d s]; simpl.
  - auto.
  - intros [= -> <-]. right. eauto.
Qed.

Lemma all_app (p : codeunit -> bool) (s t : jsstring) :
  all p (s ++ t) = all p s && all p t.
Proof. apply forallb_app. Qed.

Lemma all_cons (p : codeunit -> bool) (c : codeunit) (s : jsstring) :
  all p (c :: s) = p c && all p s.
Proof. reflexivity. Qed.

Lemma truthy_true (s : jsstring) : truthy s = true <-> s <> [].
Proof. destruct s; simpl; split; congruence. Qed.

Lemma truthy_false (s : jsstring) : truthy s = false <-> s = [].
Proof. destruct s; simpl; split; congruence. Qed.

Lemma eqb_eq (u v : codeunit) : eqb u v = true <-> u = v.
Proof.
  destruct u as [a b], v as [c d]. unfold eqb. simpl.
  rewrite andb_true_iff, !Ascii.eqb_eq. split; [intros [-> ->] | intros [= -> ->]]; auto.
Qed.

Lemma eqb_refl (u : codeunit) : eqb u u = true.
Proof. apply eqb_eq. reflexivity. Qed.

(** Rocq strings: the texts the script builds from literals. *)
Lemma sapp_cons (c : ascii) (s t : string) :
  String c s +:+ t = String c (s +:+ t).
Proof. reflexivity. Qed.

Lemma sapp_nil_l (s : string) : EmptyString +:+ s = s.
Proof. reflexivity. Qed.

Lemma sapp_assoc (s t u : string) : (s +:+ t) +:+ u = s +:+ t +:+ u.
Proof.
  induction s as [|c s IH]; [reflexivity|].
  rewrite !sapp_cons, IH. reflexivity.
Qed.

End StringFacts.

(** ** The derivative matcher decides the language of a pattern *)

Module RegexFacts.
Import Utf16 Regex StringFacts.

Create HintDb re.
#[local] Hint Constructors matches : re.

Lemma matches_nil_nullable (r : regex) (s : jsstring) :
  matches r s -> s = [] -> nullable r = true.
Proof.
  induction 1 as [ | | r1 r2 s1 s2 _ IH1 _ IH2 | r1 r2 s _ IH | r1 r2 s _ IH
                 | | ]; intros E; simpl; try reflexivity; try discriminate.
  - apply app_eq_nil in E as [-> ->]. rewrite IH1, IH2; reflexivity.
  - rewrite IH by assumption. reflexivity.
  - rewrite IH by assumption. apply orb_true_r.
Qed.

Lemma nullable_matches_nil (r : regex) :
  nullable r = true -> matches r [].
Proof.
  induction r as [ | | p | r1 IH1 r2 IH2 | r1 IH1 r2 IH2 | r IH ]; simpl;
    intros E; try discriminate; eauto with re.
  - apply andb_true_iff in E as [E1 E2].
    change (@nil codeunit) with (@nil codeunit ++ []). eauto with re.
  - apply orb_true_iff in E as [E|E]; eauto with re.
Qed.

Lemma nullable_spec (r : regex) :
  nullable r = true <-> matches r [].
Proof.
  split; [apply nullable_matches_nil|].
  intros H. eapply matches_nil_nullable; [exact H | reflexivity].
Qed.

Lemma matches_cat_inv (r1 r2 : regex) (s : jsstring) :
  matches (Cat r1 r2) s <->
  exists s1 s2, s = s1 ++ s2 /\ matches r1 s1 /\ matches r2 s2.
Proof.
  split.
  - inversion 1; subst; eauto.
  - intros (s1 & s2 & -> & H1 & H2). eauto with re.
Qed.

Lemma deriv_sound (c : codeunit) (r : regex) :
  forall s, matches (deriv c r) s -> matches r (c :: s).
Proof.
  induction r as [ | | p | r1 IH1 r2 IH2 | r1 IH1 r2 IH2 | r IH ]; simpl;
    intros s H.
  - inversion H.
  - inversion H.
  - destruct (p c) eqn:E; inversion H; subst. eauto with re.
  - assert (Hcat : forall t, matches (Cat (deriv c r1) r2) t ->
                             matches (Cat r1 r2) (c :: t)).
    { intros t (s1 & s2 & -> & H1 & H2)%matches_cat_inv.
      change (c :: s1 ++ s2) with ((c :: s1) ++ s2). eauto with re. }
    destruct (nullable r1) eqn:N; [|auto].
    inversion H; subst; [auto|].
    change (c :: s) with ([] ++ c :: s).
    apply nullable_spec in N. eauto with re.
  - inversion H; subst; eauto with re.
  - apply matches_cat_inv in H as (s1 & s2 & -> & H1 & H2).
    change (c :: s1 ++ s2) with ((c :: s1) ++ s2). eauto with re.
Qed.

Lemma deriv_complete (r : regex) (t : jsstring) :
  matches r t -> forall c s, t = c :: s -> matches (deriv c r) s.
Proof.
  induction 1 as [ | p d Hp | r1 r2 s1 s2 H1 IH1 H2 IH2 | r1 r2 t _ IH
                 | r1 r2 t _ IH | | r s1 s2 H1 IH1 H2 IH2 ];
    intros c s E; simpl; try discriminate; eauto with re.
  - injection E as -> <-. rewrite Hp. constructor.
  - apply app_eq_cons in E as [[-> ->] | (s1' & -> & ->)].
    + rewrite (matches_nil_nullable _ _ H1 eq_refl). eauto with re.
    + destruct (nullable r1); eauto with re.
  - apply app_eq_cons in E as [[-> ->] | (s1' & -> & ->)].
    + apply (IH2 c s eq_refl).
    + eauto with re.
Qed.

Lemma deriv_spec (c : codeunit) (r : regex) (s : jsstring) :
  matches (deriv c r) s <-> matches r (c :: s).
Proof.
  split; [apply deriv_sound|].
  intros H. eapply deriv_complete; [exact H | reflexivity].
Qed.

(** [test] answers membership in the language. *)
Theorem test_spec (r : regex) (s : jsstring) :
  test r s = true <-> matches r s.
Proof.
  revert r. induction s as [|c s IH]; intros r; simpl.
  - apply nullable_spec.
  - rewrite IH. apply deriv_spec.
Qed.

Lemma matches_lit (c : codeunit) (s : jsstring) :
  matches (Lit c) s <-> s = [c].
Proof.
  unfold Lit. split.
  - inversion 1 as [ | p d E | | | | | ]; subst.
    apply eqb_eq in E. subst. reflexivity.
  - intros ->. constructor. apply eqb_refl.
Qed.

Lemma matches_star_class (p : codeunit -> bool) (s : jsstring) :
  matches (Star (Class p)) s <-> all p s = true.
Proof.
  split.
  - intros H. remember (Star (Class p)) as r eqn:Er.
    induction H as [ | | | | | | r s1 s2 H1 _ H2 IH2 ]; try discriminate.
    + reflexivity.
    + injection Er as ->. rewrite all_app, (IH2 eq_refl), andb_true_r.
      inversion H1; subst. simpl. rewrite andb_true_r. assumption.
  - induction s as [|c s IH]; simpl; intros E; [constructor|].
    apply andb_true_iff in E as [Ec Es].
    change (c :: s) with ([c] ++ s).
    eauto with re.
Qed.

Lemma matches_plus_class (p : codeunit -> bool) (s : jsstring) :
  matches (Plus (Class p)) s <-> s <> [] /\ all p s = true.
Proof.
  unfold Plus. rewrite matches_cat_inv. split.
  - intros (s1 & s2 & -> & H1 & H2). apply matches_star_class in H2.
    inversion H1; subst. simpl.
    split; [discriminate|]. fold (all p s2). rewrite H2, andb_true_r. assumption.
  - intros [Hne E]. destruct s as [|c s]; [congruence|].
    simpl in E. apply andb_true_iff in E as [Ec Es].
    exists [c], s. split; [reflexivity|].
    split; [constructor; assumption | apply matches_star_class; assumption].
Qed.

End RegexFacts.

(** ** The e-mail validator *)

Module EmailFacts.
Import Utf16 Email StringFacts RegexFacts.

Lemma matches_atom (s : jsstring) :
  Regex.matches (Regex.Plus (Regex.Class notSpaceNorAt)) s <-> atom s.
Proof. apply matches_plus_class. Qed.

(** The language of the pattern, spelled out. *)
Lemma emailPattern_spec (s : jsstring) :
  Regex.matches emailPattern s <-> patternAccepts s.
Proof.
  unfold emailPattern, patternAccepts. split.
  - intros (l & s1 & -> & Hl & H)%matches_cat_inv.
    apply matches_cat_inv in H as (a & s2 & -> & Ha & H).
    apply matches_cat_inv in H as (x & s3 & -> & Hx & H).
    apply matches_cat_inv in H as (d & y & -> & Hd & Hy).
    apply matches_lit in Ha as ->. apply matches_lit in Hd as ->.
    apply matches_atom in Hl, Hx, Hy.
    exists l, x, y. auto.
  - intros (l & x & y & -> & Hl & Hx & Hy).
    apply matches_atom in Hl, Hx, Hy.
    apply Regex.MCat; [assumption|].
    apply (Regex.MCat _ _ [at_sign]); [apply matches_lit; reflexivity|].
    apply Regex.MCat; [assumption|].
    apply (Regex.MCat _ _ [dot]); [apply matches_lit; reflexivity | assumption].
Qed.

Lemma isValidEmailAddress_spec (s : jsstring) :
  isValidEmailAddress s = true <-> patternAccepts s.
Proof.
  unfold isValidEmailAddress. rewrite test_spec. apply emailPattern_spec.
Qed.

(** What the pattern accepts, the wording of the specification accepts. *)
Lemma patternAccepts_specAccepts (s : jsstring) :
  patternAccepts s -> specAccepts s.
Proof.
  intros (l & x & y & -> & Hl & [_ Hx] & [_ Hy]).
  exists l, (x ++ dot :: y). split; [reflexivity|].
  split; [assumption|]. split.
  - unfold clean. rewrite all_app, all_cons, Hx, Hy. reflexivity.
  - exists x, y. reflexivity.
Qed.

End EmailFacts.

(** C2, as stated, fails: the input ["a@.c"] has a non-empty local part,
    an ['@'] and a domain part [".c"] that is free of whitespace and ['@']
    and contains a dot, yet the validator rejects it. *)
Lemma C2_domain_starting_with_dot_rejected :
  Email.specAccepts (Utf16.lit "a@.c")
  /\ Email.isValidEmailAddress (Utf16.lit "a@.c") = false.
Proof.
  split; [|reflexivity].
  exists (Utf16.lit "a"), (Utf16.lit ".c"). split; [reflexivity|].
  split; [split; [discriminate | reflexivity]|].
  split; [reflexivity|].
  exists [], (Utf16.lit "c"). reflexivity.
Qed.

(** C2, amended: the validator accepts an input exactly when it is a
    non-empty local part, ['@'], and a domain part of the form [x.y] with
    [x] and [y] non-empty, where the local part, [x] and [y] hold no
    whitespace and no ['@'].  Every accepted input meets the wording of the
    specification; ["a@b.c"] is accepted and ["abc"], ["a@b"], ["@b.c"] are
    rejected. *)
Theorem C2_isValidEmailAddress_accepts :
  (forall s, Email.isValidEmailAddress s = true <-> Email.patternAccepts s)
  /\ (forall s, Email.isValidEmailAddress s = true -> Email.specAccepts s)
  /\ Email.isValidEmailAddress (Utf16.lit "a@b.c") = true
  /\ Email.isValidEmailAddress (Utf16.lit "abc") = false
  /\ Email.isValidEmailAddress (Utf16.lit "a@b") = false
  /\ Email.isValidEmailAddress (Utf16.lit "@b.c") = false.
Proof.
  split; [exact EmailFacts.isValidEmailAddress_spec|].
  split.
  - intros s H. apply EmailFacts.patternAccepts_specAccepts.
    apply EmailFacts.isValidEmailAddress_spec. exact H.
  - repeat split; reflexivity.
Qed.

(** ** Scroll-spy *)

Module ScrollSpyFacts.
Import DOM ScrollSpy.

Section LastSatisfying.
Context {A : Type} (p : A -> bool).

Lemma keepLast_none (l : list A) (init : A) :
  (forall x, In x l -> p x = false) -> fold_left (keepLast p) l init = init.
Proof.
  revert init. induction l as [|x l IH]; intros init H; simpl; [reflexivity|].
  unfold keepLast at 2. rewrite (H x) by (left; reflexivity).
  apply IH. intros y Hy. apply H. right. exact Hy.
Qed.

Lemma keepLast_last (before after : list A) (x init : A) :
  p x = true -> (forall y, In y after -> p y = false) ->
  fold_left (keepLast p) (before ++ x :: after) init = x.
Proof.
  intros Hx Hafter. rewrite fold_left_app. simpl.
  unfold keepLast at 2. rewrite Hx. apply keepLast_none. exact Hafter.
Qed.

End LastSatisfying.

Lemma detect_unfold (doc : Document) (w : Window) :
  detectActiveSection doc w =
  if (pageYOffset w <? 80)%float then "home"
  else fold_left (keepLast (reached doc (triggerLineY w))) SECTION_IDS "home".
Proof. reflexivity. Qed.

Lemma highlight_length (id : string) (links : list NavLink) :
  length (highlightActiveSection id links) = length links.
Proof. apply length_map. Qed.

Lemma highlight_dataSection (id : string) (links : list NavLink) :
  map dataSection (highlightActiveSection id links) = map dataSection links.
Proof.
  unfold highlightActiveSection. rewrite map_map. reflexivity.
Qed.

Lemma highlight_active (id : string) (links : list NavLink) :
  Forall (fun l => isActive l = String.eqb (dataSection l) id
                   /\ ariaCurrent l = if isActive l then Some "page" else None)
    (highlightActiveSection id links).
Proof.
  unfold highlightActiveSection. apply Forall_map, Forall_true.
  intros l. simpl. auto.
Qed.

Lemma highlight_count (id : string) (links : list NavLink) :
  activeCount (highlightActiveSection id links) = linksOf id links.
Proof.
  unfold activeCount, linksOf, highlightActiveSection.
  induction links as [|l links IH]; simpl; [reflexivity|].
  destruct (String.eqb (dataSection l) id); simpl; rewrite IH; reflexivity.
Qed.

End ScrollSpyFacts.

(** C6: [detectActiveSection] answers "home" whenever the scroll offset is
    below 80; otherwise it answers the last section of the page order that
    exists and whose top is at or above ([<=]) the trigger line, the scroll
    offset plus 0.4 times the viewport height (and "home" when no section
    is).  With sections at 0, 800 and 1600 and a viewport of 1000, offset 40
    gives "home" and offset 900 (line 1300) gives "about". *)
Theorem C6_detectActiveSection_last_reached (doc : DOM.Document) (w : DOM.Window) :
  ((DOM.pageYOffset w <? 80)%float = true ->
   ScrollSpy.detectActiveSection doc w = "home")
  /\ ((DOM.pageYOffset w <? 80)%float = false ->
      forall before sectionId after,
        ScrollSpy.SECTION_IDS = before ++ sectionId :: after ->
        ScrollSpy.reached doc (ScrollSpy.triggerLineY w) sectionId = true ->
        (forall later, In later after ->
           ScrollSpy.reached doc (ScrollSpy.triggerLineY w) later = false) ->
        ScrollSpy.detectActiveSection doc w = sectionId)
  /\ ((DOM.pageYOffset w <? 80)%float = false ->
      (forall sectionId, In sectionId ScrollSpy.SECTION_IDS ->
         ScrollSpy.reached doc (ScrollSpy.triggerLineY w) sectionId = false) ->
      ScrollSpy.detectActiveSection doc w = "home")
  /\ ScrollSpy.detectActiveSection Examples.exampleDocument
       (DOM.mkWindow 40 1000) = "home"
  /\ ScrollSpy.triggerLineY (DOM.mkWindow 900 1000) = 1300%float
  /\ ScrollSpy.detectActiveSection Examples.exampleDocument
       (DOM.mkWindow 900 1000) = "about".
Proof.
  rewrite ScrollSpyFacts.detect_unfold.
  split; [intros ->; reflexivity|].
  split.
  - intros -> before sectionId after -> Hx Hafter.
    apply ScrollSpyFacts.keepLast_last; assumption.
  - split; [intros -> H; apply ScrollSpyFacts.keepLast_none; exact H|].
    repeat split; vm_compute; reflexivity.
Qed.

(** C7, as stated, fails: on a page whose desktop and mobile navigation
    each link to "home" and "about", an evaluation at the top of the page
    leaves two links with the active indicator, not one. *)
Lemma C7_two_links_active_with_duplicate_navigation :
  ScrollSpy.activeCount
    (ScrollSpy.evaluate Examples.exampleDocument (DOM.mkWindow 0 1000)
       Examples.twoNavigations) = 2
  /\ ScrollSpy.activeCount
       (ScrollSpy.evaluate Examples.exampleDocument (DOM.mkWindow 0 1000)
          Examples.twoNavigations) <> 1.
Proof. split; [vm_compute; reflexivity | vm_compute; discriminate]. Qed.

(** C7, amended: after every evaluation of the scroll position, whatever the
    links carried before, a navigation link carries the active indicator
    (the class and [aria-current="page"]) exactly when its section
    identifier is the detected section; so the active links are as many as
    the links of that section, and all of them name the same section. *)
Theorem C7_active_links_are_those_of_detected_section
  (doc : DOM.Document) (w : DOM.Window) (links : list ScrollSpy.NavLink) :
  let detected := ScrollSpy.detectActiveSection doc w in
  let after := ScrollSpy.evaluate doc w links in
  map ScrollSpy.dataSection after = map ScrollSpy.dataSection links
  /\ Forall (fun l =>
               ScrollSpy.isActive l = String.eqb (ScrollSpy.dataSection l) detected
               /\ ScrollSpy.ariaCurrent l =
                    if ScrollSpy.isActive l then Some "page" else None) after
  /\ ScrollSpy.activeCount after = ScrollSpy.linksOf detected links
  /\ (forall l l', In l after -> In l' after ->
        ScrollSpy.isActive l = true -> ScrollSpy.isActive l' = true ->
        ScrollSpy.dataSection l = ScrollSpy.dataSection l').
Proof.
  intros detected after. unfold after, ScrollSpy.evaluate. fold detected.
  pose proof (ScrollSpyFacts.highlight_active detected links) as Hall.
  split; [apply ScrollSpyFacts.highlight_dataSection|].
  split; [exact Hall|].
  split; [apply ScrollSpyFacts.highlight_count|].
  intros l l' Hl Hl' A A'.
  rewrite List.Forall_forall in Hall.
  destruct (Hall l Hl) as [E _]. destruct (Hall l' Hl') as [E' _].
  rewrite A in E. rewrite A' in E'.
  symmetry in E, E'. apply String.eqb_eq in E, E'. congruence.
Qed.

(** ** Smooth scroll *)

Module SmoothScrollFacts.
Import DOM MobileMenu SmoothScroll.

Lemma startsWith_hash (id : string) : JSString.startsWith "#" ("#" +:+ id) = true.
Proof. destruct id; reflexivity. Qed.

Lemma matchesSelector_isHyperlink (n : Node) :
  matchesSelector n = true -> isHyperlink n = true.
Proof.
  unfold matchesSelector, isHyperlink.
  destruct (String.eqb (tagName n) "a"); [|discriminate].
  destruct (href n); [reflexivity | discriminate].
Qed.

(** When the nearest hyperlink points into the page, it is the anchor that
    [closest] finds. *)
Lemma closest_nearestHyperlink (path : list Node) (anchor : Node) (id : string) :
  nearestHyperlink path = Some anchor ->
  href anchor = Some ("#" +:+ id) ->
  closest path = Some anchor.
Proof.
  unfold nearestHyperlink, closest. intros Hnear Hhref.
  induction path as [|n path IH]; simpl in *; [discriminate|].
  destruct (isHyperlink n) eqn:Hn.
  - injection Hnear as ->.
    unfold matchesSelector. unfold isHyperlink in Hn. rewrite Hhref in *.
    rewrite startsWith_hash.
    destruct (String.eqb (tagName anchor) "a"); [reflexivity | discriminate].
  - destruct (matchesSelector n) eqn:Hm.
    + apply matchesSelector_isHyperlink in Hm. congruence.
    + apply IH. exact Hnear.
Qed.

Lemma closeMobileMenu_closed (m : Menu) (b : Button) (p : Panel) :
  hamburgerButton m = Some b -> mobileMenuPanel m = Some p ->
  panelOpen (closeMobileMenu m) = false.
Proof. unfold panelOpen, closeMobileMenu. intros -> ->. reflexivity. Qed.

Lemma closeMobileMenu_absent (m : Menu) :
  hamburgerButton m = None \/ mobileMenuPanel m = None ->
  closeMobileMenu m = m.
Proof.
  unfold closeMobileMenu. intros [H|H]; rewrite H; [|reflexivity].
  destruct (mobileMenuPanel m); reflexivity.
Qed.

Lemma closeMobileMenu_idempotent (m : Menu) :
  closeMobileMenu (closeMobileMenu m) = closeMobileMenu m.
Proof.
  unfold closeMobileMenu.
  destruct (mobileMenuPanel m) eqn:P, (hamburgerButton m) eqn:B; simpl;
    rewrite ?P, ?B; reflexivity.
Qed.

End SmoothScrollFacts.

(** C8: when the nearest enclosing hyperlink of the click target has the
    fragment [#id] as its target, then (1) if [id] is not empty and names an
    element of the page, the handler prevents the default action, scrolls
    smoothly to the element's document-relative top (its viewport top plus
    the scroll offset) minus the height of the navigation bar (0 without a
    bar) minus 8, and calls [closeMobileMenu], which leaves the panel closed
    when the menu exists and changes nothing when it does not; (2) if [id]
    is empty or names no element, the handler does nothing: no default is
    prevented, nothing scrolls, the menu is left as it is. *)
Theorem C8_onClick_scrolls_below_navigation_bar
  (page : SmoothScroll.Page) (menu : MobileMenu.Menu)
  (path : list SmoothScroll.Node) (anchor : SmoothScroll.Node) (id : string)
  (Hnearest : SmoothScroll.nearestHyperlink path = Some anchor)
  (Hfragment : SmoothScroll.href anchor = Some ("#" +:+ id)) :
  (forall targetSection,
     id <> EmptyString ->
     SmoothScroll.document page !! id = Some targetSection ->
     let navHeight := default 0%float (SmoothScroll.siteNav page) in
     let destination :=
       (DOM.rectTop targetSection + DOM.pageYOffset (SmoothScroll.window page)
        - navHeight - 8)%float in
     SmoothScroll.onClick page menu path =
       ([SmoothScroll.PreventDefault; SmoothScroll.ScrollTo destination "smooth"],
        MobileMenu.closeMobileMenu menu)
     /\ (forall b p, MobileMenu.hamburgerButton menu = Some b ->
                     MobileMenu.mobileMenuPanel menu = Some p ->
                     MobileMenu.panelOpen (MobileMenu.closeMobileMenu menu) = false)
     /\ (MobileMenu.hamburgerButton menu = None
         \/ MobileMenu.mobileMenuPanel menu = None ->
         MobileMenu.closeMobileMenu menu = menu))
  /\ (id = EmptyString \/ SmoothScroll.document page !! id = None ->
      SmoothScroll.onClick page menu path = ([], menu)
      /\ SmoothScroll.defaultPrevented (fst (SmoothScroll.onClick page menu path))
         = false
      /\ SmoothScroll.scrolls (fst (SmoothScroll.onClick page menu path)) = []).
Proof.
  pose proof (SmoothScrollFacts.closest_nearestHyperlink _ _ _ Hnearest Hfragment)
    as Hclosest.
  assert (Hrun : SmoothScroll.onClick page menu path =
                 if negb (JSString.truthy ("#" +:+ id)) || String.eqb ("#" +:+ id) "#"
                 then ([], menu)
                 else match SmoothScroll.document page !! id with
                      | None => ([], menu)
                      | Some targetSection =>
                          ([SmoothScroll.PreventDefault;
                            SmoothScroll.ScrollTo
                              (DOM.rectTop targetSection
                               + DOM.pageYOffset (SmoothScroll.window page)
                               - default 0%float (SmoothScroll.siteNav page) - 8)%float
                              "smooth"],
                           MobileMenu.closeMobileMenu menu)
                      end).
  { unfold SmoothScroll.onClick. rewrite Hclosest, Hfragment.
    destruct (SmoothScroll.siteNav page); reflexivity. }
  split.
  - intros targetSection Hid Hdoc navHeight destination.
    split; [|split].
    + rewrite Hrun, Hdoc. destruct id as [|c id]; [congruence|]. reflexivity.
    + apply SmoothScrollFacts.closeMobileMenu_closed.
    + apply SmoothScrollFacts.closeMobileMenu_absent.
  - intros Hnone.
    assert (E : SmoothScroll.onClick page menu path = ([], menu)).
    { rewrite Hrun. destruct Hnone as [-> | Hdoc]; [reflexivity|].
      rewrite Hdoc. destruct (_ || _); reflexivity. }
    rewrite E. auto.
Qed.

(** C8 at a click on an icon inside the link to "#about", the section 800
    down the page and the navigation bar 64 high. *)
Lemma C8_witness :
  SmoothScroll.nearestHyperlink Examples.clickOnIcon = Some Examples.aboutLink
  /\ SmoothScroll.href Examples.aboutLink = Some ("#" +:+ "about")
  /\ SmoothScroll.onClick Examples.examplePage Examples.openMenu
       Examples.clickOnIcon
     = ([SmoothScroll.PreventDefault; SmoothScroll.ScrollTo 728 "smooth"],
        MobileMenu.closeMobileMenu Examples.openMenu).
Proof.
  split; [reflexivity|]. split; [reflexivity|].
  pose proof (C8_onClick_scrolls_below_navigation_bar
                Examples.examplePage Examples.openMenu Examples.clickOnIcon
                Examples.aboutLink "about" eq_refl eq_refl) as [H _].
  refine (proj1 (H (DOM.mkElement 800 800) _ eq_refl)). discriminate.
Defined.

(** ** One-shot observers *)

Module RevealFacts.
Import Reveal.

Lemma callback_fold (entries : list Entry) (st : State) :
  callback entries st = fold_left deliver entries st.
Proof. reflexivity. Qed.

Lemma callback_app (first later : list Entry) (st : State) :
  callback (first ++ later) st = callback later (callback first st).
Proof. unfold callback. apply fold_left_app. Qed.

Lemma deliver_lookup_same (st : State) (entry : Entry) :
  isIntersecting entry = true ->
  deliver st entry !! target entry =
  (fun el => mkElement true false) <$> st !! target entry.
Proof.
  intros E. unfold deliver. rewrite E, !list_lookup_alter_eq.
  destruct (st !! target entry); reflexivity.
Qed.

Lemma deliver_lookup_other (st : State) (entry : Entry) (i : nat) :
  target entry <> i -> deliver st entry !! i = st !! i.
Proof.
  intros N. unfold deliver. destruct (isIntersecting entry); [|reflexivity].
  rewrite !list_lookup_alter_ne by assumption. reflexivity.
Qed.

Lemma deliver_revealed (st : State) (entry : Entry) (i : nat) :
  revealedAt st i = true -> revealedAt (deliver st entry) i = true.
Proof.
  unfold revealedAt. intros H.
  destruct (decide (target entry = i)) as [<-|N].
  - destruct (isIntersecting entry) eqn:E.
    + rewrite deliver_lookup_same by assumption.
      destruct (st !! target entry); [reflexivity | discriminate].
    + unfold deliver. rewrite E. exact H.
  - rewrite deliver_lookup_other by assumption. exact H.
Qed.

Lemma deliver_fired_same (st : State) (entry : Entry) :
  fired st (target entry) -> deliver st entry = st.
Proof.
  intros F. unfold deliver. destruct (isIntersecting entry); [|reflexivity].
  apply list_eq. intros j.
  destruct (decide (target entry = j)) as [<-|N].
  - rewrite !list_lookup_alter_eq.
    destruct (st !! target entry) as [el|] eqn:L; [|reflexivity].
    rewrite (F el L). reflexivity.
  - rewrite !list_lookup_alter_ne by assumption. reflexivity.
Qed.

Lemma deliver_fires (st : State) (entry : Entry) :
  isIntersecting entry = true -> fired (deliver st entry) (target entry).
Proof.
  intros E el. rewrite deliver_lookup_same by assumption.
  destruct (st !! target entry); simpl; congruence.
Qed.

Lemma deliver_fired (st : State) (entry : Entry) (i : nat) :
  fired st i -> fired (deliver st entry) i.
Proof.
  intros F. destruct (decide (target entry = i)) as [<-|N].
  - rewrite deliver_fired_same by assumption. exact F.
  - intros el. rewrite deliver_lookup_other by assumption. apply F.
Qed.

Lemma callback_revealed (entries : list Entry) (st : State) (i : nat) :
  revealedAt st i = true -> revealedAt (callback entries st) i = true.
Proof.
  rewrite callback_fold. revert st.
  induction entries as [|e entries IH]; intros st H; simpl; [exact H|].
  apply IH, deliver_revealed, H.
Qed.

Lemma callback_fired (entries : list Entry) (st : State) (i : nat) :
  fired st i -> fired (callback entries st) i.
Proof.
  rewrite callback_fold. revert st.
  induction entries as [|e entries IH]; intros st H; simpl; [exact H|].
  apply IH, deliver_fired, H.
Qed.

Lemma callback_fires (entries : list Entry) (st : State) (i : nat) :
  In (mkEntry i true) entries -> fired (callback entries st) i.
Proof.
  rewrite callback_fold. revert st.
  induction entries as [|e entries IH]; intros st; simpl; [tauto|].
  intros [->|Hin]; [|apply IH, Hin].
  apply (callback_fired entries), (deliver_fires st (mkEntry i true)).
  reflexivity.
Qed.

Lemma callback_after_fired (later : list Entry) (st : State) (i : nat) :
  fired st i -> List.Forall (fun e => target e = i) later ->
  callback later st = st.
Proof.
  rewrite callback_fold. intros F H.
  induction H as [|e later <- _ IH]; simpl; [reflexivity|].
  rewrite deliver_fired_same by assumption. exact IH.
Qed.

Lemma init_without_observer (revealElements : State) (i : nat) :
  i < length revealElements ->
  revealedAt (init false revealElements) i = true.
Proof.
  intros H. unfold revealedAt, init. simpl. rewrite list_lookup_fmap.
  destruct (lookup_lt_is_Some_2 revealElements i H) as [el ->]. reflexivity.
Qed.

End RevealFacts.

Module SkillBarsFacts.
Import SkillBars.

Lemma skill_callback_fold (entries : list bool) (st : State) :
  callback entries st = fold_left deliver entries st.
Proof. reflexivity. Qed.

Lemma skill_callback_animated (entries : list bool) (st : State) :
  hasAnimated st = true -> callback entries st = st.
Proof.
  rewrite skill_callback_fold. intros H.
  induction entries as [|e entries IH]; simpl; [reflexivity|].
  unfold deliver at 2. rewrite H, andb_false_r. exact IH.
Qed.

Lemma skill_callback_animates (entries : list bool) (st : State) :
  In true entries -> hasAnimated (callback entries st) = true.
Proof.
  rewrite skill_callback_fold. revert st.
  induction entries as [|e entries IH]; intros st; simpl; [tauto|].
  intros [->|Hin]; [|apply IH, Hin].
  destruct (hasAnimated st) eqn:A.
  - fold (callback entries (deliver st true)).
    unfold deliver. rewrite A. simpl. rewrite skill_callback_animated; assumption.
  - fold (callback entries (deliver st true)).
    unfold deliver. rewrite A. simpl. rewrite skill_callback_animated; reflexivity.
Qed.

(** Whatever is delivered, the bars are filled once or not at all. *)
Lemma skill_callback_timers (entries : list bool) (st : State) :
  hasAnimated st = false ->
  callback entries st = st
  \/ callback entries st = setObserving false (fillBars (setHasAnimated true st)).
Proof.
  rewrite skill_callback_fold. revert st.
  induction entries as [|e entries IH]; intros st A; simpl; [left; reflexivity|].
  destruct e.
  - right.
    assert (D : deliver st true
                = setObserving false (fillBars (setHasAnimated true st)))
      by (unfold deliver; rewrite A; reflexivity).
    rewrite D. apply (skill_callback_animated entries). reflexivity.
  - apply IH, A.
Qed.

End SkillBarsFacts.

(** C9: the reveal and skill-bar transitions happen at most once.  For the
    reveal elements: an element that is revealed stays revealed under every
    delivery of entries; once an intersecting entry for an element has been
    delivered, the element is revealed and no longer observed, and any
    further entries for that element leave the whole state as it is.  For
    the skill bars: [hasAnimated] stays true once true; once an intersecting
    entry has been delivered the flag is true and any further delivery
    leaves the whole state (flag, timers, bars) as it is; from start-up the
    bars are scheduled once or not at all. *)
Theorem C9_one_shot_transitions :
  (forall entries st i,
     Reveal.revealedAt st i = true ->
     Reveal.revealedAt (Reveal.callback entries st) i = true)
  /\ (forall first st i,
        In (Reveal.mkEntry i true) first ->
        (forall el, Reveal.callback first st !! i = Some el ->
                    Reveal.isRevealed el = true /\ Reveal.observed el = false)
        /\ (forall later,
              List.Forall (fun e => Reveal.target e = i) later ->
              Reveal.callback later (Reveal.callback first st)
              = Reveal.callback first st))
  /\ (forall entries st,
        SkillBars.hasAnimated st = true ->
        SkillBars.hasAnimated (SkillBars.callback entries st) = true)
  /\ (forall first st,
        In true first ->
        SkillBars.hasAnimated (SkillBars.callback first st) = true
        /\ (forall later,
              SkillBars.callback later (SkillBars.callback first st)
              = SkillBars.callback first st))
  /\ (forall entries pageBars,
        let st := SkillBars.init true pageBars in
        SkillBars.timers (SkillBars.callback entries st) = []
        \/ SkillBars.timers (SkillBars.callback entries st)
           = imap (fun index b =>
                     SkillBars.mkTimer index
                       (SkillBars.attributeText (SkillBars.fillWidth b) +:+ "%")
                       (index * 80)) pageBars).
Proof.
  split; [exact RevealFacts.callback_revealed|].
  split.
  { intros first st i Hin.
    pose proof (RevealFacts.callback_fires first st i Hin) as F.
    split.
    - intros el L. rewrite (F el L). split; reflexivity.
    - intros later Hl. apply (RevealFacts.callback_after_fired later _ i F Hl). }
  split.
  { intros entries st A. rewrite SkillBarsFacts.skill_callback_animated; assumption. }
  split.
  { intros first st Hin.
    pose proof (SkillBarsFacts.skill_callback_animates first st Hin) as A.
    split; [exact A|].
    intros later. apply SkillBarsFacts.skill_callback_animated, A. }
  intros entries pageBars st.
  destruct (SkillBarsFacts.skill_callback_timers entries st eq_refl) as [-> | ->];
    [left | right]; reflexivity.
Qed.


(** ** Contact form *)

Module ContactFormFacts.
Import Utf16 ContactForm.

(** Unfolds a handler down to the form and the effects it leaves. *)
Ltac run_handler :=
  cbv [onSubmit onSettled onResult onNetworkError applyFieldError
       updateFormStatus setDisabled setLabel setValue setFieldError modify emit
       getValue mbind mret action_bind action_ret formAfter effectsOf
       completionOf field setField andThen parseResponse].

Lemma allValid_fields (f : Form) :
  allValid f = true <-> forall fld, fieldValid fld f = true.
Proof.
  unfold allValid. rewrite !andb_true_iff. split.
  - intros [[[? ?] ?] ?] []; assumption.
  - intros H. repeat split; apply H.
Qed.

Lemma invalid_field_not_allValid (f : Form) (fld : Field) :
  fieldValid fld f = false -> allValid f = false.
Proof.
  intros H. destruct (allValid f) eqn:E; [|reflexivity].
  rewrite allValid_fields in E. rewrite E in H. discriminate.
Qed.

(** A valid submission: the mailto fallback, which [encodeURIComponent] can
    abort, or the request. *)
Lemma onSubmit_valid (formId : string) (f : Form) :
  allValid f = true ->
  onSubmit formId f =
  if String.eqb formId SENTINEL
  then
    match mailtoHref (trimmed Name f) (trimmed Email f)
            (trimmed Subject f) (trimmed Message f) with
    | Some href =>
        (Returned,
         mkForm (nameField f) (emailField f) (subjectField f) (messageField f)
           textOpening "form-status-message form-status-message--success"
           (submitDisabled f) (submitLabel f),
         [PreventDefault; AnchorAppended href "none"; AnchorClicked href;
          AnchorRemoved href])
    | None =>
        (Threw "URIError",
         mkForm (nameField f) (emailField f) (subjectField f) (messageField f)
           [] "form-status-message" (submitDisabled f) (submitLabel f),
         [PreventDefault])
    end
  else
    (Returned,
     mkForm (nameField f) (emailField f) (subjectField f) (messageField f)
       [] "form-status-message" true textSending,
     [PreventDefault;
      Fetch (request formId (trimmed Name f) (trimmed Email f)
               (trimmed Subject f) (trimmed Message f))]).
Proof.
  intros H. rewrite allValid_fields in H.
  pose proof (H Name) as Hn. pose proof (H Email) as He.
  pose proof (H Subject) as Hs. pose proof (H Message) as Hm.
  unfold fieldValid in *. simpl in Hn, Hs, Hm.
  unfold trimmed. simpl field.
  run_handler. rewrite Hn, He, Hs, Hm. simpl.
  destruct (String.eqb formId SENTINEL); [|reflexivity].
  destruct (mailtoHref _ _ _ _); reflexivity.
Qed.

(** An invalid submission. *)
Lemma onSubmit_invalid (formId : string) (f : Form) :
  allValid f = false ->
  let f' := formAfter (onSubmit formId) f in
  (forall fld,
     value (field fld f') = value (field fld f)
     /\ fieldError (field fld f') =
        if fieldValid fld f then fieldError (field fld f) else true)
  /\ statusText f' = textInvalid
  /\ statusClass f' = "form-status-message form-status-message--error"
  /\ submitDisabled f' = submitDisabled f
  /\ submitLabel f' = submitLabel f
  /\ effectsOf (onSubmit formId) f = PreventDefault :: errorTimers f
  /\ completionOf (onSubmit formId) f = Returned.
Proof.
  intros H. cbv zeta. unfold allValid in H. unfold errorTimers.
  assert (Hn : fieldValid Name f = truthy (trim (value (nameField f))))
    by reflexivity.
  assert (He : fieldValid Email f
               = Email.isValidEmailAddress (trim (value (emailField f))))
    by reflexivity.
  assert (Hs : fieldValid Subject f = truthy (trim (value (subjectField f))))
    by reflexivity.
  assert (Hm : fieldValid Message f = truthy (trim (value (messageField f))))
    by reflexivity.
  run_handler. rewrite <- Hn, <- He, <- Hs, <- Hm. clear Hn He Hs Hm.
  destruct (fieldValid Name f) eqn:Hn, (fieldValid Email f) eqn:He,
    (fieldValid Subject f) eqn:Hs, (fieldValid Message f) eqn:Hm;
    try discriminate H; clear H;
    unfold fieldValid in *; simpl in *;
    (split; [intros []; simpl; rewrite ?Hn, ?He, ?Hs, ?Hm; split; reflexivity|]);
    rewrite ?Hn, ?He, ?Hs, ?Hm; repeat split; reflexivity.
Qed.

Lemma errorTimers_no_action (f : Form) :
  mailtoActions (errorTimers f) = 0 /\ networkRequests (errorTimers f) = 0.
Proof.
  unfold errorTimers. cbn [flat_map].
  destruct (fieldValid Name f), (fieldValid Email f), (fieldValid Subject f),
    (fieldValid Message f); split; reflexivity.
Qed.

Lemma errorTimers_In (f : Form) (fld : Field) :
  fieldValid fld f = false -> In (ClearFieldErrorAfter fld 600) (errorTimers f).
Proof.
  intros H. unfold errorTimers. apply in_flat_map. exists fld.
  rewrite H. split; [destruct fld; simpl; tauto | left; reflexivity].
Qed.

(** The submit handler never writes a field value. *)
Lemma onSubmit_values (formId : string) (f : Form) :
  values (formAfter (onSubmit formId) f) = values f.
Proof.
  destruct (allValid f) eqn:V.
  - unfold formAfter. rewrite onSubmit_valid by assumption.
    destruct (String.eqb formId SENTINEL); [|reflexivity].
    destruct (mailtoHref _ _ _ _); reflexivity.
  - destruct (onSubmit_invalid formId f V) as (Hf & _).
    destruct (Hf Name) as [E1 _], (Hf Email) as [E2 _],
      (Hf Subject) as [E3 _], (Hf Message) as [E4 _].
    simpl in E1, E2, E3, E4. unfold values.
    rewrite E1, E2, E3, E4. reflexivity.
Qed.

(** The submit handler disables the control exactly when it sends a request. *)
Lemma onSubmit_disabled (formId : string) (f : Form) :
  (submitDisabled (formAfter (onSubmit formId) f) = true
   /\ networkRequests (effectsOf (onSubmit formId) f) = 1
   /\ allValid f = true /\ String.eqb formId SENTINEL = false)
  \/ (submitDisabled (formAfter (onSubmit formId) f) = submitDisabled f
      /\ networkRequests (effectsOf (onSubmit formId) f) = 0).
Proof.
  destruct (allValid f) eqn:V.
  - unfold formAfter, effectsOf. rewrite onSubmit_valid by assumption.
    destruct (String.eqb formId SENTINEL); [right | left; auto].
    destruct (mailtoHref _ _ _ _); auto.
  - right. destruct (onSubmit_invalid formId f V) as (_ & _ & _ & D & _ & E & _).
    split; [exact D|]. rewrite E. apply (errorTimers_no_action f).
Qed.

(** Every branch of the promise chain re-enables the control. *)
Lemma onSettled_enabled (outcome : Settled Response) (f : Form) :
  submitDisabled (formAfter (onSettled outcome) f) = false.
Proof.
  destruct outcome as [[[] [[|[[] [message|]]]|]]|]; reflexivity.
Qed.

(** The values after the promise chain: cleared after a response with the
    [ok] flag and a body that parses, untouched otherwise. *)
Lemma onSettled_values (outcome : Settled Response) (f : Form) :
  values (formAfter (onSettled outcome) f) =
  match outcome with
  | Fulfilled (mkResponse true (Fulfilled _)) => ([], [], [], [])
  | _ => values f
  end.
Proof.
  destruct outcome as [[[] [[|[[] [message|]]]|]]|]; reflexivity.
Qed.

Lemma step_enabledAtIdle (formId : string) (ev : Event) (p p' : Page) :
  enabledAtIdle p -> step formId ev p = Some p' -> enabledAtIdle p'.
Proof.
  unfold enabledAtIdle. intros Inv Hstep.
  destruct ev as [fld text| |fld|outcome]; simpl in Hstep.
  - injection Hstep as <-. simpl.
    destruct fld; run_handler; simpl; exact Inv.
  - injection Hstep as <-. simpl.
    destruct (onSubmit_disabled formId (form p)) as [(_ & -> & _)|(-> & ->)].
    + intros _. lia.
    + intros D. specialize (Inv D). lia.
  - injection Hstep as <-. simpl.
    destruct fld; run_handler; simpl; exact Inv.
  - destruct (inFlight p) as [|n]; [discriminate|].
    injection Hstep as <-. simpl. rewrite onSettled_enabled. discriminate.
Qed.

Lemma run_enabledAtIdle (formId : string) (evs : list Event) (p p' : Page) :
  enabledAtIdle p -> run formId evs p = Some p' -> enabledAtIdle p'.
Proof.
  revert p. induction evs as [|ev evs IH]; intros p Inv Hrun; simpl in Hrun.
  - injection Hrun as <-. exact Inv.
  - destruct (step formId ev p) as [q|] eqn:S; [|discriminate].
    apply (IH q); [|exact Hrun].
    apply (step_enabledAtIdle formId ev p q Inv S).
Qed.

End ContactFormFacts.

(** C1 does not hold of the handler for every valid submission.  At a form
    whose four fields are valid and whose subject ends with an unpaired
    surrogate, with the form id still the sentinel "YOUR_FORM_ID",
    [encodeURIComponent] throws: the handler stops with a URIError after
    preventing the default and clearing the status, builds no mailto anchor
    and sends no request, so the submission triggers no action where the
    claim has exactly one.  With a configured form id the same form is sent
    in one request. *)
Theorem C1_unpaired_surrogate_aborts_mailto_fallback :
  let f := Examples.cutForm in
  let fallback := ContactForm.onSubmit ContactForm.FORMSPREE_FORM_ID in
  let remote := ContactForm.onSubmit Examples.configuredId in
  ContactForm.allValid f = true
  /\ ContactForm.FORMSPREE_FORM_ID = ContactForm.SENTINEL
  /\ ContactForm.completionOf fallback f = ContactForm.Threw "URIError"
  /\ ContactForm.effectsOf fallback f = [ContactForm.PreventDefault]
  /\ ContactForm.mailtoActions (ContactForm.effectsOf fallback f) = 0
  /\ ContactForm.networkRequests (ContactForm.effectsOf fallback f) = 0
  /\ ContactForm.statusText (ContactForm.formAfter fallback f) = []
  /\ ContactForm.statusClass (ContactForm.formAfter fallback f)
     = "form-status-message"
  /\ ContactForm.completionOf remote f = ContactForm.Returned
  /\ ContactForm.effectsOf remote f
     = [ContactForm.PreventDefault;
        ContactForm.Fetch
          (ContactForm.request Examples.configuredId (Utf16.lit "Ada")
             (Utf16.lit "ada@example.org") Examples.cutSubject
             (Utf16.lit "Nice site."))].
Proof. cbv zeta. repeat split; vm_compute; reflexivity. Qed.

(** C3: when at least one field is invalid, the one pass of the handler
    gives every invalid field the error class and a timer that clears it
    after 600 ms, leaves the one aggregate error status, sends no request
    and builds no mailto anchor; field values and the submit control are
    left as they were. *)
Theorem C3_invalid_submission_flags_every_invalid_field
  (formId : string) (f : ContactForm.Form) (invalid : ContactForm.Field)
  (Hinvalid : ContactForm.fieldValid invalid f = false) :
  let f' := ContactForm.formAfter (ContactForm.onSubmit formId) f in
  let effects := ContactForm.effectsOf (ContactForm.onSubmit formId) f in
  (forall fld,
     ContactForm.fieldValid fld f = false ->
     ContactForm.fieldError (ContactForm.field fld f') = true
     /\ In (ContactForm.ClearFieldErrorAfter fld 600) effects)
  /\ ContactForm.statusText f'
     = Utf16.lit "Please fill in all fields correctly."
  /\ ContactForm.statusClass f' = "form-status-message form-status-message--error"
  /\ ContactForm.networkRequests effects = 0
  /\ ContactForm.mailtoActions effects = 0
  /\ ContactForm.values f' = ContactForm.values f
  /\ ContactForm.submitDisabled f' = ContactForm.submitDisabled f.
Proof.
  cbv zeta.
  pose proof (ContactFormFacts.invalid_field_not_allValid f invalid Hinvalid) as V.
  destruct (ContactFormFacts.onSubmit_invalid formId f V)
    as (Hf & Ht & Hc & Hd & _ & He & _).
  rewrite He.
  destruct (ContactFormFacts.errorTimers_no_action f) as [Hm Hn].
  split.
  { intros fld Hfld. destruct (Hf fld) as [_ E]. rewrite Hfld in E.
    split; [exact E|]. right. apply ContactFormFacts.errorTimers_In, Hfld. }
  repeat split; try assumption.
  apply ContactFormFacts.onSubmit_values.
Qed.

(** C3 at a form with a malformed e-mail address and an empty subject. *)
Lemma C3_witness :
  ContactForm.fieldValid ContactForm.Subject Examples.halfFilledForm = false
  /\ ContactForm.fieldError
       (ContactForm.emailField
          (ContactForm.formAfter (ContactForm.onSubmit Examples.configuredId)
             Examples.halfFilledForm)) = true
  /\ ContactForm.fieldError
       (ContactForm.subjectField
          (ContactForm.formAfter (ContactForm.onSubmit Examples.configuredId)
             Examples.halfFilledForm)) = true.
Proof.
  pose proof (C3_invalid_submission_flags_every_invalid_field
                Examples.configuredId Examples.halfFilledForm
                ContactForm.Subject eq_refl) as [H _].
  split; [reflexivity|]. split.
  - exact (proj1 (H ContactForm.Email eq_refl)).
  - exact (proj1 (H ContactForm.Subject eq_refl)).
Defined.

(** C4, as stated, fails: a response with the [ok] flag whose body does not
    parse as JSON rejects [response.json()], so the chain runs the [catch]
    and the four values stay as they were instead of being cleared. *)
Lemma C4_ok_response_with_unparseable_body_keeps_fields :
  let submitted :=
    ContactForm.formAfter (ContactForm.onSubmit Examples.configuredId)
      Examples.filledForm in
  let response := ContactForm.mkResponse true ContactForm.Rejected in
  ContactForm.values
    (ContactForm.formAfter
       (ContactForm.onSettled (ContactForm.Fulfilled response)) submitted)
  = (Utf16.lit " Ada ", Utf16.lit "ada@example.org", Utf16.lit "Hello",
     Utf16.lit "Nice site. ")
  /\ ContactForm.values
       (ContactForm.formAfter
          (ContactForm.onSettled (ContactForm.Fulfilled response)) submitted)
     <> ([], [], [], []).
Proof. split; [vm_compute; reflexivity | vm_compute; discriminate]. Qed.

(** C4, amended: after a remote submission settles, the four field values
    are cleared to the empty string when the response has the [ok] flag and
    its body parses as JSON; they are left as they were before the
    submission when the response lacks the [ok] flag, when [fetch] rejects,
    and when the body of the response does not parse. *)
Theorem C4_fields_cleared_only_after_parsed_ok_response
  (formId : string) (f : ContactForm.Form) :
  let submitted := ContactForm.formAfter (ContactForm.onSubmit formId) f in
  let after outcome :=
    ContactForm.values
      (ContactForm.formAfter (ContactForm.onSettled outcome) submitted) in
  (forall d,
     after (ContactForm.Fulfilled
              (ContactForm.mkResponse true (ContactForm.Fulfilled d)))
     = ([], [], [], []))
  /\ (forall d,
        after (ContactForm.Fulfilled
                 (ContactForm.mkResponse false (ContactForm.Fulfilled d)))
        = ContactForm.values f)
  /\ after ContactForm.Rejected = ContactForm.values f
  /\ (forall okFlag,
        after (ContactForm.Fulfilled
                 (ContactForm.mkResponse okFlag ContactForm.Rejected))
        = ContactForm.values f).
Proof.
  cbv zeta.
  repeat split; intros; rewrite ContactFormFacts.onSettled_values;
    try match goal with b : bool |- _ => destruct b end;
    try apply ContactFormFacts.onSubmit_values; reflexivity.
Qed.

(** C5: the submit control is disabled only while a request is in flight.
    From a page whose control is enabled, after any sequence of events
    (typing, submissions, error timers, responses): if the control is
    disabled then a request is in flight, so it is never disabled at idle;
    and whatever way an in-flight request settles (response with or
    without the [ok] flag, rejected [fetch], unparseable body), the control
    is enabled afterwards.  The submit handler sets the flag only on the
    path that sends the request, and every branch of the promise chain
    clears it. *)
Theorem C5_submit_control_disabled_only_in_flight
  (formId : string) (start : ContactForm.Page) (events : list ContactForm.Event)
  (p : ContactForm.Page)
  (Henabled : ContactForm.submitDisabled (ContactForm.form start) = false)
  (Hrun : ContactForm.run formId events start = Some p) :
  (ContactForm.submitDisabled (ContactForm.form p) = true ->
   0 < ContactForm.inFlight p)
  /\ (forall outcome,
        0 < ContactForm.inFlight p ->
        exists p',
          ContactForm.step formId (ContactForm.FetchSettles outcome) p = Some p'
          /\ ContactForm.submitDisabled (ContactForm.form p') = false)
  /\ (forall f,
        ContactForm.submitDisabled
          (ContactForm.formAfter (ContactForm.onSubmit formId) f) = true ->
        ContactForm.submitDisabled f = true
        \/ ContactForm.networkRequests
             (ContactForm.effectsOf (ContactForm.onSubmit formId) f) = 1)
  /\ (forall outcome f,
        ContactForm.submitDisabled
          (ContactForm.formAfter (ContactForm.onSettled outcome) f) = false).
Proof.
  split.
  { apply (ContactFormFacts.run_enabledAtIdle formId events start p);
      [|exact Hrun].
    intros D. congruence. }
  split.
  { intros outcome Hpos. simpl.
    destruct (ContactForm.inFlight p) as [|n]; [lia|].
    eexists. split; [reflexivity|]. simpl.
    apply ContactFormFacts.onSettled_enabled. }
  split.
  { intros f D.
    destruct (ContactFormFacts.onSubmit_disabled formId f)
      as [(_ & E & _)|(E & _)]; [right; exact E | left; congruence]. }
  exact ContactFormFacts.onSettled_enabled.
Qed.

(** C5 at the example page, after one submission to a configured endpoint. *)
Lemma C5_witness :
  ContactForm.submitDisabled (ContactForm.form Examples.idlePage) = false
  /\ exists p,
       ContactForm.run Examples.configuredId [ContactForm.SubmitEvent]
         Examples.idlePage = Some p
       /\ ContactForm.submitDisabled (ContactForm.form p) = true
       /\ 0 < ContactForm.inFlight p.
Proof.
  split; [reflexivity|].
  exists (ContactForm.mkPage
            (ContactForm.formAfter (ContactForm.onSubmit Examples.configuredId)
               Examples.filledForm) 1).
  split; [reflexivity|]. split; [reflexivity|].
  exact (proj1 (C5_submit_control_disabled_only_in_flight
                  Examples.configuredId Examples.idlePage
                  [ContactForm.SubmitEvent] _ eq_refl eq_refl) eq_refl).
Defined.

(** C10: on the mailto path (the four fields valid, the form id the
    sentinel) the submission leaves the four fields as they were, whichever
    way the handler ends: the values and the four inputs after it are those
    before it, and so is the submit control; only the status element
    differs.  When the target of the link can be built, the handler returns
    with the status "Opening your email client…" and the effects are
    the default prevented and one anchor appended, clicked and removed;
    when [encodeURIComponent] throws, the handler stops with the status
    cleared and no anchor. *)
Theorem C10_mailto_fallback_keeps_fields
  (f : ContactForm.Form) (Hvalid : ContactForm.allValid f = true) :
  let f' :=
    ContactForm.formAfter (ContactForm.onSubmit ContactForm.SENTINEL) f in
  let effects :=
    ContactForm.effectsOf (ContactForm.onSubmit ContactForm.SENTINEL) f in
  let completion :=
    ContactForm.completionOf (ContactForm.onSubmit ContactForm.SENTINEL) f in
  let target :=
    ContactForm.mailtoHref
      (ContactForm.trimmed ContactForm.Name f)
      (ContactForm.trimmed ContactForm.Email f)
      (ContactForm.trimmed ContactForm.Subject f)
      (ContactForm.trimmed ContactForm.Message f) in
  ContactForm.values f' = ContactForm.values f
  /\ (forall fld, ContactForm.field fld f' = ContactForm.field fld f)
  /\ ContactForm.submitDisabled f' = ContactForm.submitDisabled f
  /\ ContactForm.submitLabel f' = ContactForm.submitLabel f
  /\ ContactForm.networkRequests effects = 0
  /\ (forall href,
        target = Some href ->
        completion = ContactForm.Returned
        /\ ContactForm.statusText f'
           = Utf16.lit "Opening your email client" ++ [Utf16.unitOf 0x2026]
        /\ ContactForm.statusClass f'
           = "form-status-message form-status-message--success"
        /\ effects
           = [ContactForm.PreventDefault;
              ContactForm.AnchorAppended href "none";
              ContactForm.AnchorClicked href; ContactForm.AnchorRemoved href])
  /\ (target = None ->
      completion = ContactForm.Threw "URIError"
      /\ ContactForm.statusText f' = []
      /\ ContactForm.statusClass f' = "form-status-message"
      /\ effects = [ContactForm.PreventDefault]).
Proof.
  cbv zeta.
  unfold ContactForm.formAfter, ContactForm.effectsOf, ContactForm.completionOf.
  rewrite ContactFormFacts.onSubmit_valid by assumption.
  rewrite String.eqb_refl.
  destruct (ContactForm.mailtoHref _ _ _ _) as [h|]; simpl.
  - split; [reflexivity|]. split; [intros []; reflexivity|].
    repeat (split; [reflexivity|]). split.
    + intros href [= <-]. repeat split; reflexivity.
    + discriminate.
  - split; [reflexivity|]. split; [intros []; reflexivity|].
    repeat (split; [reflexivity|]). split.
    + discriminate.
    + intros _. repeat split; reflexivity.
Qed.

(** C10 at the filled-in example form: the values keep their untrimmed
    text. *)
Lemma C10_witness :
  ContactForm.allValid Examples.filledForm = true
  /\ ContactForm.values
       (ContactForm.formAfter (ContactForm.onSubmit ContactForm.SENTINEL)
          Examples.filledForm)
     = (Utf16.lit " Ada ", Utf16.lit "ada@example.org", Utf16.lit "Hello",
        Utf16.lit "Nice site. ").
Proof.
  split; [reflexivity|].
  exact (proj1 (C10_mailto_fallback_keeps_fields Examples.filledForm eq_refl)).
Defined.

(* ================================================================== *)
(** * Part III. Further properties of the script                        *)
(* ================================================================== *)

(** ** Mobile menu *)

Module MenuFacts.
Import MobileMenu MenuListeners.

Lemma open_agree (m : Menu) : agree (openMobileMenu m).
Proof.
  unfold agree, openMobileMenu.
  destruct (mobileMenuPanel m) eqn:P, (hamburgerButton m) eqn:B; simpl;
    rewrite ?P, ?B; auto.
Qed.

Lemma close_agree (m : Menu) : agree (closeMobileMenu m).
Proof.
  unfold agree, closeMobileMenu.
  destruct (mobileMenuPanel m) eqn:P, (hamburgerButton m) eqn:B; simpl;
    rewrite ?P, ?B; auto 10.
Qed.

Lemma step_agree (m : Menu) (ev : Event) : agree m -> agree (step m ev).
Proof.
  intros A. destruct ev as [|key| |]; simpl.
  - unfold onHamburgerClick. destruct (installed m); [|exact A].
    destruct (panelOpen m); [apply close_agree | apply open_agree].
  - unfold onKeydown. destruct (installed m); [|exact A].
    destruct (_ && _); [apply close_agree | exact A].
  - apply open_agree.
  - apply close_agree.
Qed.

Lemma run_agree (events : list Event) (m : Menu) :
  agree m -> agree (run events m).
Proof.
  unfold run. revert m.
  induction events as [|ev events IH]; intros m A; simpl; [exact A|].
  apply IH, step_agree, A.
Qed.

End MenuFacts.

(** X1: the panel and the trigger button never disagree.  [openMobileMenu]
    and [closeMobileMenu] each leave the panel class, [aria-hidden],
    [aria-expanded] and the button label in step, and every sequence of
    hamburger clicks, key presses and open or close calls keeps them in
    step once they are. *)
Theorem X1_menu_attributes_agree (events : list MenuListeners.Event)
  (m : MobileMenu.Menu) :
  MenuListeners.agree (MobileMenu.openMobileMenu m)
  /\ MenuListeners.agree (MobileMenu.closeMobileMenu m)
  /\ (MenuListeners.agree m ->
      MenuListeners.agree (MenuListeners.run events m)).
Proof.
  split; [apply MenuFacts.open_agree|].
  split; [apply MenuFacts.close_agree|].
  apply MenuFacts.run_agree.
Qed.

(** X2: when either element is missing, nothing the menu code can do
    changes the menu: [openMobileMenu], [closeMobileMenu], the click
    listener and the key listener all leave it as it is and give the focus
    to nothing. *)
Theorem X2_menu_without_elements_is_inert (m : MobileMenu.Menu)
  (Hmissing : MobileMenu.hamburgerButton m = None
              \/ MobileMenu.mobileMenuPanel m = None) :
  MobileMenu.openMobileMenu m = m
  /\ MobileMenu.closeMobileMenu m = m
  /\ MenuListeners.onHamburgerClick m = m
  /\ (forall key, MenuListeners.onKeydown key m = (m, []))
  /\ (forall events, MenuListeners.run events m = m).
Proof.
  assert (I : MenuListeners.installed m = false).
  { unfold MenuListeners.installed.
    destruct Hmissing as [-> | ->]; [reflexivity|].
    destruct (MobileMenu.hamburgerButton m); reflexivity. }
  assert (O : MobileMenu.openMobileMenu m = m).
  { unfold MobileMenu.openMobileMenu.
    destruct Hmissing as [-> | ->]; [|reflexivity].
    destruct (MobileMenu.mobileMenuPanel m); reflexivity. }
  assert (C : MobileMenu.closeMobileMenu m = m).
  { unfold MobileMenu.closeMobileMenu.
    destruct Hmissing as [-> | ->]; [|reflexivity].
    destruct (MobileMenu.mobileMenuPanel m); reflexivity. }
  assert (K : forall key, MenuListeners.onKeydown key m = (m, [])).
  { intros key. unfold MenuListeners.onKeydown. rewrite I. reflexivity. }
  assert (H : MenuListeners.onHamburgerClick m = m).
  { unfold MenuListeners.onHamburgerClick. rewrite I. reflexivity. }
  repeat split; try assumption.
  intros events. unfold MenuListeners.run.
  induction events as [|ev events IH]; simpl; [reflexivity|].
  assert (S : MenuListeners.step m ev = m).
  { destruct ev; simpl; rewrite ?K; auto. }
  rewrite S. exact IH.
Qed.

Lemma X2_witness :
  MobileMenu.mobileMenuPanel
    (MobileMenu.mkMenu (Some (MobileMenu.mkButton "false" "Open navigation menu"))
       None) = None
  /\ MenuListeners.onHamburgerClick
       (MobileMenu.mkMenu
          (Some (MobileMenu.mkButton "false" "Open navigation menu")) None)
     = MobileMenu.mkMenu
         (Some (MobileMenu.mkButton "false" "Open navigation menu")) None.
Proof.
  split; [reflexivity|].
  exact (proj1 (proj2 (proj2
    (X2_menu_without_elements_is_inert
       (MobileMenu.mkMenu
          (Some (MobileMenu.mkButton "false" "Open navigation menu")) None)
       (or_intror eq_refl))))).
Defined.

(** X3: with both elements present, a click on the hamburger button flips
    the panel; two clicks bring a menu whose attributes agree back to
    exactly the state it was in. *)
Theorem X3_hamburger_click_toggles (m : MobileMenu.Menu)
  (Hinstalled : MenuListeners.installed m = true) :
  MobileMenu.panelOpen (MenuListeners.onHamburgerClick m)
  = negb (MobileMenu.panelOpen m)
  /\ (MenuListeners.agree m ->
      MenuListeners.onHamburgerClick (MenuListeners.onHamburgerClick m) = m).
Proof.
  unfold MenuListeners.onHamburgerClick, MenuListeners.installed,
    MenuListeners.agree, MobileMenu.panelOpen, MobileMenu.openMobileMenu,
    MobileMenu.closeMobileMenu in *.
  destruct m as [[b|] [p|]]; simpl in *; try discriminate.
  split.
  - destruct (MobileMenu.isOpen p); reflexivity.
  - destruct b as [e l], p as [o h]; simpl.
    intros [(-> & -> & -> & ->) | (-> & -> & -> & ->)]; reflexivity.
Qed.

Lemma X3_witness :
  MenuListeners.installed Examples.openMenu = true
  /\ MobileMenu.panelOpen (MenuListeners.onHamburgerClick Examples.openMenu)
     = false.
Proof.
  split; [reflexivity|].
  exact (proj1 (X3_hamburger_click_toggles Examples.openMenu eq_refl)).
Defined.

(** X4: the Escape key closes an open menu and returns the focus to the
    hamburger button; any other key, and Escape on a closed menu, changes
    nothing and moves no focus. *)
Theorem X4_escape_closes_open_menu (key : string) (m : MobileMenu.Menu)
  (Hinstalled : MenuListeners.installed m = true) :
  (key = "Escape" -> MobileMenu.panelOpen m = true ->
   MenuListeners.onKeydown key m
   = (MobileMenu.closeMobileMenu m, [MenuListeners.FocusHamburger])
   /\ MobileMenu.panelOpen (MobileMenu.closeMobileMenu m) = false)
  /\ (key <> "Escape" \/ MobileMenu.panelOpen m = false ->
      MenuListeners.onKeydown key m = (m, [])).
Proof.
  unfold MenuListeners.onKeydown. rewrite Hinstalled. split.
  - intros -> ->. split; [reflexivity|].
    unfold MenuListeners.installed in Hinstalled.
    destruct (MobileMenu.hamburgerButton m) as [b|] eqn:B; [|discriminate].
    destruct (MobileMenu.mobileMenuPanel m) as [p|] eqn:P; [|discriminate].
    unfold MobileMenu.panelOpen, MobileMenu.closeMobileMenu.
    rewrite P, B. reflexivity.
  - intros [N | ->]; [|rewrite andb_false_r; reflexivity].
    apply String.eqb_neq in N. rewrite N. reflexivity.
Qed.

Lemma X4_witness :
  MenuListeners.installed Examples.openMenu = true
  /\ MenuListeners.onKeydown "Escape" Examples.openMenu
     = (MobileMenu.closeMobileMenu Examples.openMenu,
        [MenuListeners.FocusHamburger]).
Proof.
  split; [reflexivity|].
  exact (proj1 (proj1 (X4_escape_closes_open_menu "Escape" Examples.openMenu
                         eq_refl) eq_refl eq_refl)).
Defined.

(** ** Scroll-spy *)

Module ThrottleFacts.
Import DOM ScrollSpy ScrollThrottle.

Lemma step_coalesced (ev : Event) (s s' : Spy) :
  coalesced s -> step ev s = Some s' -> coalesced s'.
Proof.
  unfold coalesced. intros C Hstep. destruct ev as [|l|l]; simpl in Hstep.
  - injection Hstep as <-. unfold onScroll.
    destruct (rafScheduled s) eqn:R; simpl; [rewrite R; exact C|].
    rewrite C. reflexivity.
  - destruct (framesPending s) as [|n] eqn:F; [discriminate|].
    injection Hstep as <-. simpl. rewrite F.
    destruct (rafScheduled s); simpl; congruence.
  - injection Hstep as <-. simpl. exact C.
Qed.

Lemma run_coalesced (events : list Event) (s s' : Spy) :
  coalesced s -> run events s = Some s' -> coalesced s'.
Proof.
  revert s. induction events as [|ev events IH]; intros s C Hrun;
    simpl in Hrun.
  - injection Hrun as <-. exact C.
  - destruct (step ev s) as [t|] eqn:St; [|discriminate].
    apply (IH t); [apply (step_coalesced ev s t C St) | exact Hrun].
Qed.

(** A burst of scroll events. *)
Lemma run_scrolls (n : nat) (s : Spy) :
  run (repeat Scroll (S n)) s
  = Some (mkSpy true (allNavLinks s)
            (if rafScheduled s then framesPending s else S (framesPending s))).
Proof.
  revert s. induction n as [|n IH]; intros s.
  - simpl. unfold onScroll. destruct s as [[] links k]; reflexivity.
  - change (repeat Scroll (S (S n))) with (Scroll :: repeat Scroll (S n)).
    cbn [run step]. rewrite IH. unfold onScroll.
    destruct s as [[] links k]; reflexivity.
Qed.

Lemma keepLast_in {A : Type} (p : A -> bool) (l : list A) (init : A) :
  In (fold_left (keepLast p) l init) (init :: l).
Proof.
  revert init. induction l as [|x l IH]; intros init; cbn [fold_left].
  - left. reflexivity.
  - destruct (IH (keepLast p init x)) as [E|I].
    + rewrite <- E. unfold keepLast. destruct (p x); simpl; auto.
    + right. right. exact I.
Qed.

Lemma highlight_overwrites (a b : string) (links : list NavLink) :
  highlightActiveSection b (highlightActiveSection a links)
  = highlightActiveSection b links.
Proof.
  unfold highlightActiveSection. rewrite map_map. reflexivity.
Qed.

End ThrottleFacts.

(** X5: scroll events are coalesced per animation frame.  From start-up,
    whatever scroll, frame and load events follow, at most one frame
    callback is waiting, and the flag [rafScheduled] is up exactly when one
    is; a burst of any number of scroll events asks for one frame only and
    leaves the links alone, and the frame that follows evaluates the links
    and lowers the flag. *)
Theorem X5_scroll_events_coalesce_per_frame
  (l0 : ScrollThrottle.Layout) (links : list ScrollSpy.NavLink)
  (events : list ScrollThrottle.Event) (s : ScrollThrottle.Spy)
  (Hrun : ScrollThrottle.run events (ScrollThrottle.init l0 links) = Some s) :
  ScrollThrottle.framesPending s <= 1
  /\ (ScrollThrottle.rafScheduled s = true <->
      ScrollThrottle.framesPending s = 1)
  /\ (ScrollThrottle.rafScheduled s = false ->
      forall n l,
        ScrollThrottle.run
          (repeat ScrollThrottle.Scroll (S n) ++ [ScrollThrottle.Frame l]) s
        = Some (ScrollThrottle.mkSpy false
                  (ScrollSpy.evaluate (ScrollThrottle.layoutDocument l)
                     (ScrollThrottle.layoutWindow l)
                     (ScrollThrottle.allNavLinks s)) 0)).
Proof.
  assert (C : ScrollThrottle.coalesced s).
  { apply (ThrottleFacts.run_coalesced events (ScrollThrottle.init l0 links) s);
      [reflexivity | exact Hrun]. }
  unfold ScrollThrottle.coalesced in C.
  split; [destruct (ScrollThrottle.rafScheduled s); lia|].
  split; [destruct (ScrollThrottle.rafScheduled s); split; intros; congruence|].
  intros R n l. rewrite R in C.
  assert (Happ : forall evs1 evs2 s0 s1,
             ScrollThrottle.run evs1 s0 = Some s1 ->
             ScrollThrottle.run (evs1 ++ evs2) s0 = ScrollThrottle.run evs2 s1).
  { induction evs1 as [|e evs1 IH]; intros evs2 s0 s1 H; simpl in *.
    - injection H as <-. reflexivity.
    - destruct (ScrollThrottle.step e s0); [eauto | discriminate]. }
  rewrite (Happ _ _ _ _ (ThrottleFacts.run_scrolls n s)).
  rewrite R, C. reflexivity.
Qed.

Lemma X5_witness :
  ScrollThrottle.run [ScrollThrottle.Scroll; ScrollThrottle.Scroll]
    (ScrollThrottle.init
       (ScrollThrottle.mkLayout Examples.exampleDocument (DOM.mkWindow 0 1000))
       Examples.twoNavigations)
  = Some (ScrollThrottle.mkSpy true
            (ScrollSpy.evaluate Examples.exampleDocument (DOM.mkWindow 0 1000)
               Examples.twoNavigations) 1)
  /\ ScrollThrottle.framesPending
       (ScrollThrottle.mkSpy true
          (ScrollSpy.evaluate Examples.exampleDocument (DOM.mkWindow 0 1000)
             Examples.twoNavigations) 1) <= 1.
Proof.
  split; [reflexivity|].
  exact (proj1 (X5_scroll_events_coalesce_per_frame
                  (ScrollThrottle.mkLayout Examples.exampleDocument
                     (DOM.mkWindow 0 1000))
                  Examples.twoNavigations
                  [ScrollThrottle.Scroll; ScrollThrottle.Scroll] _ eq_refl)).
Defined.

(** X6: [detectActiveSection] never answers anything but one of the five
    known section identifiers, whatever the page holds and wherever it is
    scrolled (missing sections, sections out of order, an offset that is not
    a number). *)
Theorem X6_detected_section_is_known (doc : DOM.Document) (w : DOM.Window) :
  In (ScrollSpy.detectActiveSection doc w) ScrollSpy.SECTION_IDS.
Proof.
  unfold ScrollSpy.detectActiveSection.
  destruct (DOM.pageYOffset w <? 80)%float; [left; reflexivity|].
  destruct (ThrottleFacts.keepLast_in
              (ScrollSpy.reached doc (ScrollSpy.triggerLineY w))
              ScrollSpy.SECTION_IDS "home") as [E|I].
  - left. exact E.
  - exact I.
Qed.

(** X7: the links remember nothing of earlier evaluations: evaluating a
    second time, at any scroll position, gives the links the state a single
    evaluation at that position gives them, and evaluating twice in a row at
    the same position changes nothing. *)
Theorem X7_evaluation_overwrites_history
  (doc1 doc2 : DOM.Document) (w1 w2 : DOM.Window)
  (links : list ScrollSpy.NavLink) :
  ScrollSpy.evaluate doc2 w2 (ScrollSpy.evaluate doc1 w1 links)
  = ScrollSpy.evaluate doc2 w2 links
  /\ ScrollSpy.evaluate doc1 w1 (ScrollSpy.evaluate doc1 w1 links)
     = ScrollSpy.evaluate doc1 w1 links.
Proof.
  unfold ScrollSpy.evaluate.
  split; apply ThrottleFacts.highlight_overwrites.
Qed.

(** ** Reveal animations and skill bars *)

Module ObserverFacts.
Import Reveal RevealWatch.

Lemma init_notStranded (ioReady : bool) (revealElements : State) :
  notStranded (init ioReady revealElements).
Proof.
  intros i el. unfold init. destruct ioReady; simpl;
    rewrite list_lookup_fmap; destruct (revealElements !! i); simpl;
    intros [= <-]; auto.
Qed.

Lemma deliver_notStranded (st : State) (entry : Entry) :
  notStranded st -> notStranded (deliver st entry).
Proof.
  intros N i el L.
  destruct (decide (target entry = i)) as [<-|D].
  - destruct (isIntersecting entry) eqn:E.
    + rewrite RevealFacts.deliver_lookup_same in L by assumption.
      destruct (st !! target entry); simpl in L; [|discriminate].
      injection L as <-. auto.
    + unfold deliver in L. rewrite E in L. apply (N _ _ L).
  - rewrite RevealFacts.deliver_lookup_other in L by assumption.
    apply (N _ _ L).
Qed.

Lemma callback_notStranded (entries : list Entry) (st : State) :
  notStranded st -> notStranded (callback entries st).
Proof.
  unfold callback. revert st.
  induction entries as [|e entries IH]; intros st N; simpl; [exact N|].
  apply IH, deliver_notStranded, N.
Qed.

Lemma deliver_length (st : State) (entry : Entry) :
  length (deliver st entry) = length st.
Proof.
  unfold deliver. destruct (isIntersecting entry); [|reflexivity].
  rewrite !length_alter. reflexivity.
Qed.

Lemma deliver_untouched (st : State) (entry : Entry) (i : nat) :
  (isIntersecting entry = true -> target entry <> i) ->
  deliver st entry !! i = st !! i.
Proof.
  intros H. destruct (isIntersecting entry) eqn:E.
  - apply RevealFacts.deliver_lookup_other, H. reflexivity.
  - unfold deliver. rewrite E. reflexivity.
Qed.

End ObserverFacts.

(** X8: no reveal element is ever left hidden and unwatched.  After
    start-up, with or without the intersection observer, and after any
    entries the observer delivers, every element is revealed or is still
    under observation; without the observer every element is revealed at
    start-up. *)
Theorem X8_reveal_elements_never_stranded
  (ioReady : bool) (revealElements : Reveal.State)
  (entries : list Reveal.Entry) (i : nat) (el : Reveal.Element)
  (Hel : Reveal.callback entries (Reveal.init ioReady revealElements) !! i
         = Some el) :
  (Reveal.isRevealed el = true \/ Reveal.observed el = true)
  /\ (ioReady = false -> Reveal.isRevealed el = true).
Proof.
  split.
  - apply (ObserverFacts.callback_notStranded entries
             (Reveal.init ioReady revealElements)
             (ObserverFacts.init_notStranded ioReady revealElements) i el Hel).
  - intros ->.
    assert (Hlen : i < length revealElements).
    { apply lookup_lt_Some in Hel.
      assert (L : forall es st, length (Reveal.callback es st) = length st).
      { unfold Reveal.callback. induction es as [|e es IH]; intros st; simpl;
          [reflexivity|]. rewrite IH. apply ObserverFacts.deliver_length. }
      rewrite L in Hel. unfold Reveal.init in Hel. simpl in Hel.
      rewrite length_map in Hel. exact Hel. }
    pose proof (RevealFacts.callback_revealed entries
                  (Reveal.init false revealElements) i
                  (RevealFacts.init_without_observer revealElements i Hlen)) as R.
    unfold Reveal.revealedAt in R. rewrite Hel in R. exact R.
Qed.

Lemma X8_witness :
  Reveal.callback [Reveal.mkEntry 1 true]
    (Reveal.init true [Reveal.mkElement false false; Reveal.mkElement false false])
    !! 0 = Some (Reveal.mkElement false true)
  /\ (Reveal.isRevealed (Reveal.mkElement false true) = true
      \/ Reveal.observed (Reveal.mkElement false true) = true).
Proof.
  split; [reflexivity|].
  exact (proj1 (X8_reveal_elements_never_stranded true
                  [Reveal.mkElement false false; Reveal.mkElement false false]
                  [Reveal.mkEntry 1 true] 0 (Reveal.mkElement false true)
                  eq_refl)).
Defined.

(** X9: the observer callback touches only the elements it is told have
    entered the viewport.  An element that no intersecting entry names keeps
    its state, so an entry for an element that leaves the viewport hides
    nothing, and the list of elements keeps its length. *)
Theorem X9_reveal_callback_touches_only_intersecting_targets
  (entries : list Reveal.Entry) (st : Reveal.State) (i : nat)
  (Hothers : forall e, In e entries -> Reveal.isIntersecting e = true ->
                       Reveal.target e <> i) :
  Reveal.callback entries st !! i = st !! i
  /\ length (Reveal.callback entries st) = length st.
Proof.
  unfold Reveal.callback. revert st Hothers.
  induction entries as [|e entries IH]; intros st H; simpl; [auto|].
  destruct (IH (Reveal.deliver st e)) as [L N].
  { intros e' I. apply H. right. exact I. }
  rewrite L, N. split.
  - apply ObserverFacts.deliver_untouched, H. left. reflexivity.
  - apply ObserverFacts.deliver_length.
Qed.

Lemma X9_witness :
  (forall e, In e [Reveal.mkEntry 0 false; Reveal.mkEntry 1 true] ->
             Reveal.isIntersecting e = true -> Reveal.target e <> 0)
  /\ Reveal.callback [Reveal.mkEntry 0 false; Reveal.mkEntry 1 true]
       [Reveal.mkElement true false; Reveal.mkElement false true] !! 0
     = Some (Reveal.mkElement true false).
Proof.
  assert (H : forall e, In e [Reveal.mkEntry 0 false; Reveal.mkEntry 1 true] ->
                        Reveal.isIntersecting e = true -> Reveal.target e <> 0).
  { intros e [<-|[<-|[]]]; simpl; intros; [discriminate | lia]. }
  split; [exact H|].
  exact (proj1 (X9_reveal_callback_touches_only_intersecting_targets
                  [Reveal.mkEntry 0 false; Reveal.mkEntry 1 true]
                  [Reveal.mkElement true false; Reveal.mkElement false true]
                  0 H)).
Defined.

(** X10: the skill bars are filled the same way on both paths.  Without the
    observer, start-up schedules one timer per bar at once; with it, the
    first delivery that holds an intersecting entry schedules exactly those
    timers and stops the observation.  The timer of the bar at position [k]
    waits [k * 80] ms and sets the width to the bar's [data-fill-width]
    followed by ["%"]. *)
Theorem X10_skill_bars_staggered_on_both_paths (pageBars : list SkillBars.Bar) :
  length (SkillBars.timers (SkillBars.init false pageBars)) = length pageBars
  /\ (forall k b,
        pageBars !! k = Some b ->
        SkillBars.timers (SkillBars.init false pageBars) !! k
        = Some (SkillBars.mkTimer k
                  (SkillBars.attributeText (SkillBars.fillWidth b) +:+ "%")
                  (k * 80)))
  /\ (forall entries,
        In true entries ->
        SkillBars.timers
          (SkillBars.callback entries (SkillBars.init true pageBars))
        = SkillBars.timers (SkillBars.init false pageBars)
        /\ SkillBars.observing
             (SkillBars.callback entries (SkillBars.init true pageBars))
           = false)
  /\ (forall entries,
        ~ In true entries ->
        SkillBars.callback entries (SkillBars.init true pageBars)
        = SkillBars.init true pageBars).
Proof.
  split; [simpl; apply length_imap|].
  split.
  { intros k b L. simpl. rewrite list_lookup_imap, L. reflexivity. }
  split.
  { intros entries Hin.
    pose proof (SkillBarsFacts.skill_callback_animates entries
                  (SkillBars.init true pageBars) Hin) as A.
    destruct (SkillBarsFacts.skill_callback_timers entries
                (SkillBars.init true pageBars) eq_refl) as [E|E];
      rewrite E in *; [discriminate A|]. split; reflexivity. }
  intros entries Hnone. unfold SkillBars.callback.
  induction entries as [|e entries IH]; simpl; [reflexivity|].
  destruct e; [exfalso; apply Hnone; left; reflexivity|].
  apply IH. intros I. apply Hnone. right. exact I.
Qed.

(** ** Collecting and validating the values *)

Module TrimFacts.
Import Utf16 StringFacts.

Lemma trimStart_split (s : jsstring) :
  exists pre, s = pre ++ trimStart s /\ all isWhiteSpace pre = true.
Proof.
  induction s as [|c s (pre & E & W)]; simpl.
  - exists []. auto.
  - destruct (isWhiteSpace c) eqn:Wc.
    + exists (c :: pre). split.
      * simpl. rewrite <- E. reflexivity.
      * rewrite all_cons, Wc, W. reflexivity.
    + exists []. auto.
Qed.


Lemma trimEnd_nil (s : jsstring) :
  trimEnd s = [] <-> all isWhiteSpace s = true.
Proof.
  induction s as [|c s IH]; [simpl; tauto|].
  rewrite all_cons. simpl.
  destruct (trimEnd s) as [|d t] eqn:T.
  - destruct (isWhiteSpace c); simpl.
    + rewrite <- IH. tauto.
    + split; discriminate.
  - split; [discriminate|].
    intros [_ H]%andb_true_iff. apply IH in H. discriminate.
Qed.

Lemma trimEnd_split (s : jsstring) :
  exists post, s = trimEnd s ++ post /\ all isWhiteSpace post = true.
Proof.
  induction s as [|c s (post & E & W)]; simpl.
  - exists []. auto.
  - destruct (trimEnd s) as [|d t] eqn:T.
    + simpl in E. subst post.
      destruct (isWhiteSpace c) eqn:Wc.
      * exists (c :: s). rewrite all_cons, Wc, W. auto.
      * exists s. auto.
    + exists post. split; [|exact W].
      change ((d :: t) ++ post) with (d :: t ++ post) in E.
      simpl. rewrite <- E. reflexivity.
Qed.



(** A string with no whitespace at all is its own trimmed form. *)
Lemma trimEnd_clean (s : jsstring) :
  all (fun c => negb (isWhiteSpace c)) s = true -> trimEnd s = s.
Proof.
  induction s as [|c s IH]; [reflexivity|].
  rewrite all_cons. simpl.
  intros [Wc H]%andb_true_iff. rewrite (IH H).
  destruct s; [|reflexivity].
  apply negb_true_iff in Wc. rewrite Wc. reflexivity.
Qed.

Lemma trimStart_app_space (pre s : jsstring) :
  all isWhiteSpace pre = true -> trimStart (pre ++ s) = trimStart s.
Proof.
  induction pre as [|c pre IH]; [reflexivity|].
  rewrite all_cons. simpl. intros [Wc H]%andb_true_iff.
  rewrite Wc. apply IH, H.
Qed.

Lemma trimEnd_app_space (s post : jsstring) :
  all isWhiteSpace post = true -> trimEnd (s ++ post) = trimEnd s.
Proof.
  intros W. induction s as [|c s IH].
  - simpl. apply trimEnd_nil, W.
  - simpl. rewrite IH. reflexivity.
Qed.

Lemma trim_nil (s : jsstring) :
  trim s = [] <-> all isWhiteSpace s = true.
Proof.
  unfold trim. rewrite trimEnd_nil.
  destruct (trimStart_split s) as (pre & E & W).
  split.
  - intros H. rewrite E, all_app, W, H. reflexivity.
  - intros H. rewrite E, all_app in H.
    apply andb_true_iff in H as [_ H]. exact H.
Qed.

(** The trimmed form of a string whose core holds no whitespace. *)
Lemma trim_sandwich (pre core post : jsstring) :
  all isWhiteSpace pre = true ->
  all (fun c => negb (isWhiteSpace c)) core = true ->
  all isWhiteSpace post = true ->
  trim (pre ++ core ++ post) = core.
Proof.
  intros Wpre Wcore Wpost. unfold trim.
  rewrite trimStart_app_space by assumption.
  destruct core as [|c core].
  - simpl.
    assert (T : trimStart post = []).
    { clear - Wpost. induction post as [|d post IH]; simpl; [reflexivity|].
      rewrite all_cons in Wpost.
      apply andb_true_iff in Wpost as [-> H]. apply IH, H. }
    rewrite T. reflexivity.
  - rewrite all_cons in Wcore.
    apply andb_true_iff in Wcore as [Wc H].
    rewrite <- app_comm_cons.
    cbn [trimStart]. apply negb_true_iff in Wc. rewrite Wc.
    rewrite app_comm_cons, trimEnd_app_space by assumption.
    apply trimEnd_clean. rewrite all_cons, Wc, H. reflexivity.
Qed.

End TrimFacts.

Module ValidationFacts.
Import Utf16 StringFacts TrimFacts Email.

Lemma all_impl (p q : codeunit -> bool) (s : jsstring) :
  (forall c, p c = true -> q c = true) -> all p s = true -> all q s = true.
Proof.
  intros H. induction s as [|c s IH]; [reflexivity|].
  rewrite !all_cons.
  intros [Hc Hs]%andb_true_iff. rewrite (H c Hc), (IH Hs). reflexivity.
Qed.

Lemma notSpaceNorAt_not_space (c : codeunit) :
  notSpaceNorAt c = true -> negb (isWhiteSpace c) = true.
Proof.
  unfold notSpaceNorAt. destruct (isWhiteSpace c); simpl; auto.
Qed.

Lemma notSpaceNorAt_at : notSpaceNorAt at_sign = false.
Proof. reflexivity. Qed.

Lemma count_app (c : codeunit) (s t : jsstring) :
  count c (s ++ t) = count c s + count c t.
Proof. unfold count. rewrite List.filter_app, List.length_app. reflexivity. Qed.

Lemma count_cons (c d : codeunit) (s : jsstring) :
  count c (d :: s) = (if eqb c d then 1 else 0) + count c s.
Proof. unfold count. simpl. destruct (eqb c d); reflexivity. Qed.

Lemma count_none (p : codeunit -> bool) (c : codeunit) (s : jsstring) :
  p c = false -> all p s = true -> count c s = 0.
Proof.
  intros Hc. induction s as [|d s IH]; [reflexivity|].
  rewrite all_cons, count_cons.
  intros [Hd Hs]%andb_true_iff. rewrite (IH Hs).
  destruct (eqb c d) eqn:E; [|reflexivity].
  apply eqb_eq in E. congruence.
Qed.

Lemma atom_length (s : jsstring) : atom s -> 1 <= length s.
Proof. intros [N _]. destruct s; [congruence | simpl; lia]. Qed.

(** The characters of an accepted address. *)
Lemma patternAccepts_no_space (s : jsstring) :
  patternAccepts s -> all (fun c => negb (isWhiteSpace c)) s = true.
Proof.
  intros (l & x & y & -> & [_ Hl] & [_ Hx] & [_ Hy]).
  rewrite all_app, all_cons, all_app, all_cons.
  rewrite (all_impl _ _ l notSpaceNorAt_not_space Hl),
    (all_impl _ _ x notSpaceNorAt_not_space Hx),
    (all_impl _ _ y notSpaceNorAt_not_space Hy).
  reflexivity.
Qed.

End ValidationFacts.

(** X11: a name, a subject or a message is valid exactly when it holds at
    least one character that is not whitespace: text made of spaces, tabs
    and line breaks only is treated as empty. *)
Theorem X11_required_field_needs_visible_character (f : ContactForm.Form) :
  ContactForm.fieldValid ContactForm.Name f
  = negb (Utf16.all Utf16.isWhiteSpace
            (ContactForm.value (ContactForm.nameField f)))
  /\ ContactForm.fieldValid ContactForm.Subject f
     = negb (Utf16.all Utf16.isWhiteSpace
               (ContactForm.value (ContactForm.subjectField f)))
  /\ ContactForm.fieldValid ContactForm.Message f
     = negb (Utf16.all Utf16.isWhiteSpace
               (ContactForm.value (ContactForm.messageField f))).
Proof.
  assert (H : forall s,
             Utf16.truthy (Utf16.trim s)
             = negb (Utf16.all Utf16.isWhiteSpace s)).
  { intros s. destruct (Utf16.all Utf16.isWhiteSpace s) eqn:W.
    - apply TrimFacts.trim_nil in W. rewrite W. reflexivity.
    - destruct (Utf16.trim s) eqn:T; [|reflexivity].
      apply TrimFacts.trim_nil in T. congruence. }
  unfold ContactForm.fieldValid. simpl. rewrite !H. auto.
Qed.

(** X12: the e-mail field forgives whitespace around the address and none
    inside it: the field is valid exactly when its value is whitespace, an
    address the validator's pattern accepts, and whitespace again. *)
Theorem X12_email_field_forgives_surrounding_whitespace (f : ContactForm.Form) :
  ContactForm.fieldValid ContactForm.Email f = true <->
  exists pre core post,
    ContactForm.value (ContactForm.emailField f) = pre ++ core ++ post
    /\ Utf16.all Utf16.isWhiteSpace pre = true
    /\ Utf16.all Utf16.isWhiteSpace post = true
    /\ Email.patternAccepts core.
Proof.
  unfold ContactForm.fieldValid.
  set (v := ContactForm.value (ContactForm.emailField f)).
  rewrite EmailFacts.isValidEmailAddress_spec. split.
  - intros H.
    destruct (TrimFacts.trimStart_split v) as (pre & E1 & W1).
    destruct (TrimFacts.trimEnd_split (Utf16.trimStart v)) as (post & E2 & W2).
    exists pre, (Utf16.trim v), post.
    split; [|auto].
    unfold Utf16.trim. rewrite <- E2. exact E1.
  - intros (pre & core & post & E & W1 & W2 & H).
    rewrite E, TrimFacts.trim_sandwich; auto.
    apply ValidationFacts.patternAccepts_no_space, H.
Qed.

(** X13: whatever the validator accepts holds exactly one ['@'], no
    whitespace, and at least five characters. *)
Theorem X13_accepted_address_shape (email : Utf16.jsstring)
  (Hvalid : Email.isValidEmailAddress email = true) :
  Utf16.count Email.at_sign email = 1
  /\ Utf16.all (fun c => negb (Utf16.isWhiteSpace c)) email = true
  /\ 5 <= length email.
Proof.
  apply EmailFacts.isValidEmailAddress_spec in Hvalid.
  split; [|split].
  - destruct Hvalid as (l & x & y & -> & [_ Hl] & [_ Hx] & [_ Hy]).
    rewrite ValidationFacts.count_app, ValidationFacts.count_cons,
      ValidationFacts.count_app, ValidationFacts.count_cons.
    rewrite (ValidationFacts.count_none Email.notSpaceNorAt Email.at_sign l
               eq_refl Hl),
      (ValidationFacts.count_none Email.notSpaceNorAt Email.at_sign x
         eq_refl Hx),
      (ValidationFacts.count_none Email.notSpaceNorAt Email.at_sign y
         eq_refl Hy).
    reflexivity.
  - apply ValidationFacts.patternAccepts_no_space, Hvalid.
  - destruct Hvalid as (l & x & y & -> & Hl & Hx & Hy).
    rewrite List.length_app. simpl. rewrite List.length_app. simpl.
    apply ValidationFacts.atom_length in Hl, Hx, Hy. lia.
Qed.

Lemma X13_witness :
  Email.isValidEmailAddress (Utf16.lit "ada@example.org") = true
  /\ Utf16.count Email.at_sign (Utf16.lit "ada@example.org") = 1.
Proof.
  split; [reflexivity|].
  exact (proj1 (X13_accepted_address_shape (Utf16.lit "ada@example.org")
                  eq_refl)).
Defined.

(** ** The mailto target *)

Module MailtoFacts.
Import Utf16 StringFacts.

(** Induction over the code units of a string two at a time, as
    [encodeURIComponent] reads them. *)
Lemma pair_ind (P : jsstring -> Prop) :
  P [] -> (forall u, P [u]) ->
  (forall u v s, P s -> P (v :: s) -> P (u :: v :: s)) ->
  forall s, P s.
Proof.
  intros H0 H1 H2 s.
  assert (H : P s /\ forall u, P (u :: s)); [|exact (proj1 H)].
  induction s as [|v s [IHs IHv]]; split; auto.
Qed.

Lemma text_all_app (p : ascii -> bool) (s t : string) :
  Text.all p (s +:+ t) = Text.all p s && Text.all p t.
Proof.
  induction s as [|c s IH]; [reflexivity|].
  rewrite sapp_cons. simpl. rewrite IH, andb_assoc. reflexivity.
Qed.

Lemma text_all_impl (p q : ascii -> bool) (s : string) :
  (forall c, p c = true -> q c = true) ->
  Text.all p s = true -> Text.all q s = true.
Proof.
  intros H. induction s as [|c s IH]; simpl; [reflexivity|].
  intros [Hc Hs]%andb_true_iff. rewrite (H c Hc), (IH Hs). reflexivity.
Qed.

Lemma text_count_app (c : ascii) (s t : string) :
  Text.count c (s +:+ t) = Text.count c s + Text.count c t.
Proof.
  induction s as [|d s IH]; [reflexivity|].
  rewrite sapp_cons. simpl. rewrite IH. lia.
Qed.

Lemma text_count_none (p : ascii -> bool) (c : ascii) (s : string) :
  p c = false -> Text.all p s = true -> Text.count c s = 0.
Proof.
  intros Hc. induction s as [|d s IH]; simpl; [reflexivity|].
  intros [Hd Hs]%andb_true_iff. rewrite (IH Hs).
  destruct (Ascii.eqb d c) eqn:E; [|reflexivity].
  apply Ascii.eqb_eq in E. congruence.
Qed.

Lemma percentByte_safe (b : ascii) :
  Text.all Text.isUriSafe (percentByte b) = true.
Proof. destruct b as [[] [] [] [] [] [] [] []]; vm_compute; reflexivity. Qed.

Lemma escape_safe (v : N) : Text.all Text.isUriSafe (escape v) = true.
Proof.
  unfold escape. induction (utf8 v) as [|b bs IH]; [reflexivity|].
  cbn [fold_right]. rewrite text_all_app, percentByte_safe, IH. reflexivity.
Qed.

Lemma isUriSafe_not_space (c : ascii) :
  Text.isUriSafe c = true -> negb (Text.isSpace c) = true.
Proof. destruct c as [[] [] [] [] [] [] [] []]; vm_compute; auto. Qed.

(** One step of [encodeURIComponent]. *)
Lemma encodeURIComponent_cons (u : codeunit) (rest : jsstring) :
  encodeURIComponent (u :: rest) =
  if isUnreserved u
  then String (snd u) <$> encodeURIComponent rest
  else if isLowSurrogate u then None
  else if isHighSurrogate u
  then
    match rest with
    | v :: rest' =>
        if isLowSurrogate v
        then String.append (escape (pairCodePoint u v))
               <$> encodeURIComponent rest'
        else None
    | [] => None
    end
  else String.append (escape (code u)) <$> encodeURIComponent rest.
Proof. reflexivity. Qed.

(** Whatever [encodeURIComponent] returns is made of unreserved characters
    and percent signs. *)
Lemma encodeURIComponent_safe (s : jsstring) :
  forall e, encodeURIComponent s = Some e -> Text.all Text.isUriSafe e = true.
Proof.
  assert (Step : forall u rest,
             (forall e, encodeURIComponent rest = Some e ->
                        Text.all Text.isUriSafe e = true) ->
             isHighSurrogate u = false ->
             forall e, encodeURIComponent (u :: rest) = Some e ->
                       Text.all Text.isUriSafe e = true).
  { intros u rest IH Hh e. rewrite encodeURIComponent_cons, Hh.
    destruct (isUnreserved u) eqn:Hu.
    - destruct (encodeURIComponent rest) as [e'|]; [|discriminate].
      intros [= <-]. simpl. rewrite (IH e' eq_refl), andb_true_r.
      unfold isUnreserved in Hu. apply andb_true_iff in Hu as [_ Hu].
      unfold Text.isUriSafe. rewrite Hu. reflexivity.
    - destruct (isLowSurrogate u); [discriminate|].
      destruct (encodeURIComponent rest) as [e'|]; [|discriminate].
      intros [= <-]. rewrite text_all_app, escape_safe, (IH e' eq_refl).
      reflexivity. }
  induction s as [| u | u v s IHs IHv] using pair_ind.
  - intros e [= <-]. reflexivity.
  - destruct (isHighSurrogate u) eqn:Hh.
    + intros e. rewrite encodeURIComponent_cons, Hh.
      destruct (isUnreserved u) eqn:Hu.
      * unfold isUnreserved, isHighSurrogate, inRange, code in *.
        destruct u as [a b]. simpl in *.
        apply andb_true_iff in Hu as [->%Ascii.eqb_eq _].
        apply andb_true_iff in Hh as [Hh _]. apply N.leb_le in Hh.
        pose proof (N_ascii_bounded b). simpl in Hh. lia.
      * destruct (isLowSurrogate u); discriminate.
    + apply Step; [|exact Hh]. intros e [= <-]. reflexivity.
  - destruct (isHighSurrogate u) eqn:Hh; [|apply Step; assumption].
    intros e. rewrite encodeURIComponent_cons, Hh.
    destruct (isUnreserved u) eqn:Hu.
    + unfold isUnreserved, isHighSurrogate, inRange, code in *.
      destruct u as [a b]. simpl in *.
      apply andb_true_iff in Hu as [->%Ascii.eqb_eq _].
      apply andb_true_iff in Hh as [Hh _]. apply N.leb_le in Hh.
      pose proof (N_ascii_bounded b). simpl in Hh. lia.
    + destruct (isLowSurrogate u); [discriminate|].
      destruct (isLowSurrogate v); [|discriminate].
      destruct (encodeURIComponent s) as [e'|]; [|discriminate].
      intros [= <-]. rewrite text_all_app, escape_safe, (IHs e' eq_refl).
      reflexivity.
Qed.

(** Encoding a string followed by a code unit that is not the second half
    of a pair: the two parts are encoded on their own, and the whole throws
    when either part does. *)
Lemma encodeURIComponent_app (a : jsstring) (c : codeunit) (b : jsstring) :
  isLowSurrogate c = false ->
  encodeURIComponent (a ++ c :: b) =
  match encodeURIComponent a, encodeURIComponent (c :: b) with
  | Some ea, Some eb => Some (ea +:+ eb)
  | _, _ => None
  end.
Proof.
  intros Hc.
  assert (Step : forall u rest,
             encodeURIComponent (rest ++ c :: b) =
             match encodeURIComponent rest, encodeURIComponent (c :: b) with
             | Some ea, Some eb => Some (ea +:+ eb)
             | _, _ => None
             end ->
             isHighSurrogate u = false ->
             encodeURIComponent ((u :: rest) ++ c :: b) =
             match encodeURIComponent (u :: rest),
                   encodeURIComponent (c :: b) with
             | Some ea, Some eb => Some (ea +:+ eb)
             | _, _ => None
             end).
  { intros u rest IH Hh. rewrite <- app_comm_cons.
    rewrite !(encodeURIComponent_cons u), Hh, IH.
    destruct (isUnreserved u).
    - destruct (encodeURIComponent rest), (encodeURIComponent (c :: b));
        reflexivity.
    - destruct (isLowSurrogate u).
      + destruct (encodeURIComponent (c :: b)); reflexivity.
      + destruct (encodeURIComponent rest), (encodeURIComponent (c :: b));
          simpl; rewrite ?sapp_assoc; reflexivity. }
  induction a as [| u | u v s IHs IHv] using pair_ind.
  - simpl app. destruct (encodeURIComponent (c :: b)); reflexivity.
  - destruct (isHighSurrogate u) eqn:Hh.
    + simpl app. rewrite !(encodeURIComponent_cons u), Hh, Hc.
      destruct (isUnreserved u) eqn:Hu.
      * unfold isUnreserved, isHighSurrogate, inRange, code in *.
        destruct u as [x y]. simpl in *.
        apply andb_true_iff in Hu as [->%Ascii.eqb_eq _].
        apply andb_true_iff in Hh as [Hh _]. apply N.leb_le in Hh.
        pose proof (N_ascii_bounded y). simpl in Hh. lia.
      * destruct (isLowSurrogate u); reflexivity.
    + apply Step; [|exact Hh].
      simpl app. destruct (encodeURIComponent (c :: b)); reflexivity.
  - destruct (isHighSurrogate u) eqn:Hh; [|apply Step; assumption].
    rewrite <- !app_comm_cons.
    rewrite !(encodeURIComponent_cons u), Hh, IHs.
    destruct (isUnreserved u).
    + rewrite app_comm_cons, IHv.
      destruct (encodeURIComponent (v :: s)),
        (encodeURIComponent (c :: b)); reflexivity.
    + destruct (isLowSurrogate u).
      * destruct (encodeURIComponent (c :: b)); reflexivity.
      * destruct (isLowSurrogate v).
        -- destruct (encodeURIComponent s), (encodeURIComponent (c :: b));
             simpl; rewrite ?sapp_assoc; reflexivity.
        -- destruct (encodeURIComponent (c :: b)); reflexivity.
Qed.

(** A code unit that is neither unreserved nor a surrogate is escaped. *)
Lemma encodeURIComponent_escaped (u : codeunit) (rest : jsstring) :
  isUnreserved u = false -> isLowSurrogate u = false ->
  isHighSurrogate u = false ->
  encodeURIComponent (u :: rest)
  = String.append (escape (code u)) <$> encodeURIComponent rest.
Proof. intros H1 H2 H3. rewrite encodeURIComponent_cons, H1, H2, H3. reflexivity. Qed.

Lemma encodeURIComponent_kept (u : codeunit) (rest : jsstring) :
  isUnreserved u = true ->
  encodeURIComponent (u :: rest) = String (snd u) <$> encodeURIComponent rest.
Proof. intros H. rewrite encodeURIComponent_cons, H. reflexivity. Qed.

End MailtoFacts.

Module LayoutFacts.
Import Utf16 StringFacts MailtoFacts ContactForm.

(** The body of the message, encoded: the parts are encoded on their own
    and the whole throws when one of them does. *)
Lemma mailtoBody_encoded (nameValue emailValue messageValue : jsstring) :
  encodeURIComponent (mailtoBody nameValue emailValue messageValue) =
  match encodeURIComponent messageValue, encodeURIComponent nameValue,
        encodeURIComponent emailValue with
  | Some message, Some name, Some email =>
      Some (message +:+ "%0A%0A---%0AFrom%3A%20" +:+ name +:+ "%20%3C"
            +:+ email +:+ "%3E")
  | _, _, _ => None
  end.
Proof.
  unfold mailtoBody, join, newline.
  cbn [lit list_ascii_of_string map app].
  rewrite (encodeURIComponent_app messageValue) by reflexivity.
  repeat first [ rewrite encodeURIComponent_escaped by reflexivity
               | rewrite encodeURIComponent_kept by reflexivity ].
  rewrite (encodeURIComponent_app nameValue) by reflexivity.
  repeat first [ rewrite encodeURIComponent_escaped by reflexivity
               | rewrite encodeURIComponent_kept by reflexivity ].
  rewrite (encodeURIComponent_app emailValue) by reflexivity.
  destruct (encodeURIComponent messageValue) as [m|],
    (encodeURIComponent nameValue) as [n|],
    (encodeURIComponent emailValue) as [e|]; try reflexivity.
Qed.

End LayoutFacts.

(** X14: what the visitor types cannot break out of the mailto target.
    Whatever the four values are, a target the handler builds starts with
    the owner's address, holds exactly one ['?'] and exactly one ['&']
    (those that introduce the subject and the body), no ['#'] and no
    whitespace or line break: every such character of the subject, the
    message, the name and the address arrives percent-encoded. *)
Theorem X14_mailto_target_is_well_formed
  (nameValue emailValue subjectValue messageValue : Utf16.jsstring)
  (href : string)
  (Hbuilt : ContactForm.mailtoHref nameValue emailValue subjectValue
              messageValue = Some href) :
  JSString.startsWith "mailto:hello@mdkportfolio.dev?subject=" href = true
  /\ Text.count "?" href = 1
  /\ Text.count "&" href = 1
  /\ Text.count "#" href = 0
  /\ Text.all (fun c => negb (Text.isSpace c)) href = true.
Proof.
  unfold ContactForm.mailtoHref in Hbuilt.
  destruct (Utf16.encodeURIComponent subjectValue) as [subject|] eqn:Es;
    [|discriminate].
  destruct (Utf16.encodeURIComponent (ContactForm.mailtoBody _ _ _))
    as [body|] eqn:Eb; [|discriminate].
  injection Hbuilt as <-.
  pose proof (MailtoFacts.encodeURIComponent_safe _ _ Es) as Ss.
  pose proof (MailtoFacts.encodeURIComponent_safe _ _ Eb) as Sb.
  split; [destruct subject; reflexivity|].
  rewrite !MailtoFacts.text_count_app, !MailtoFacts.text_all_app.
  rewrite (MailtoFacts.text_count_none Text.isUriSafe "?" _ eq_refl Ss),
    (MailtoFacts.text_count_none Text.isUriSafe "?" _ eq_refl Sb),
    (MailtoFacts.text_count_none Text.isUriSafe "&" _ eq_refl Ss),
    (MailtoFacts.text_count_none Text.isUriSafe "&" _ eq_refl Sb),
    (MailtoFacts.text_count_none Text.isUriSafe "#" _ eq_refl Ss),
    (MailtoFacts.text_count_none Text.isUriSafe "#" _ eq_refl Sb).
  rewrite (MailtoFacts.text_all_impl _ _ _ MailtoFacts.isUriSafe_not_space Ss),
    (MailtoFacts.text_all_impl _ _ _ MailtoFacts.isUriSafe_not_space Sb).
  repeat split; reflexivity.
Qed.

(** X14 at the values of the filled-in example form. *)
Lemma X14_witness :
  ContactForm.mailtoHref (Utf16.lit "Ada") (Utf16.lit "ada@example.org")
    (Utf16.lit "Hello") (Utf16.lit "Nice site.")
  = Some ("mailto:hello@mdkportfolio.dev?subject=Hello&body=Nice%20site."
          +:+ "%0A%0A---%0AFrom%3A%20Ada%20%3Cada%40example.org%3E")
  /\ Text.count "?"
       ("mailto:hello@mdkportfolio.dev?subject=Hello&body=Nice%20site."
        +:+ "%0A%0A---%0AFrom%3A%20Ada%20%3Cada%40example.org%3E") = 1.
Proof.
  split; [reflexivity|].
  exact (proj1 (proj2 (X14_mailto_target_is_well_formed
                         (Utf16.lit "Ada") (Utf16.lit "ada@example.org")
                         (Utf16.lit "Hello") (Utf16.lit "Nice site.")
                         _ eq_refl))).
Defined.

(** X15: the layout of the mailto target: the subject, then a body made of
    the message, an empty line, a line of three dashes and a line
    [From: name <address>], each part percent-encoded on its own; no target
    is built when [encodeURIComponent] throws on one of the four values,
    and only then. *)
Theorem X15_mailto_target_layout
  (nameValue emailValue subjectValue messageValue : Utf16.jsstring) :
  ContactForm.mailtoHref nameValue emailValue subjectValue messageValue
  = match Utf16.encodeURIComponent subjectValue,
          Utf16.encodeURIComponent messageValue,
          Utf16.encodeURIComponent nameValue,
          Utf16.encodeURIComponent emailValue with
    | Some subject, Some message, Some name, Some email =>
        Some ("mailto:hello@mdkportfolio.dev?subject=" +:+ subject
              +:+ "&body=" +:+ message
              +:+ "%0A%0A---%0AFrom%3A%20" +:+ name
              +:+ "%20%3C" +:+ email +:+ "%3E")
    | _, _, _, _ => None
    end.
Proof.
  unfold ContactForm.mailtoHref.
  rewrite LayoutFacts.mailtoBody_encoded.
  destruct (Utf16.encodeURIComponent subjectValue),
    (Utf16.encodeURIComponent messageValue),
    (Utf16.encodeURIComponent nameValue),
    (Utf16.encodeURIComponent emailValue); reflexivity.
Qed.

(** ** The form across a submission and its response *)

Module RoundFacts.
Import ContactForm FormOutcome.

Lemma fieldValid_values (f g : Form) (fld : Field) :
  values f = values g -> fieldValid fld f = fieldValid fld g.
Proof.
  unfold values. intros [= A B C D].
  destruct fld; unfold fieldValid; simpl; congruence.
Qed.

Lemma allValid_values (f g : Form) :
  values f = values g -> allValid f = allValid g.
Proof.
  intros H. unfold allValid.
  rewrite !(fieldValid_values f g _ H). reflexivity.
Qed.

Lemma trimmed_values (f g : Form) (fld : Field) :
  values f = values g -> trimmed fld f = trimmed fld g.
Proof.
  unfold values. intros [= A B C D].
  destruct fld; unfold trimmed; simpl; congruence.
Qed.

Lemma onSettled_values_kept (outcome : Settled Response) (f : Form) :
  isParsedOk outcome = false ->
  values (formAfter (onSettled outcome) f) = values f.
Proof.
  intros H. rewrite ContactFormFacts.onSettled_values.
  destruct outcome as [[[] [d|]]|]; try reflexivity. discriminate.
Qed.

Lemma onSettled_values_cleared (outcome : Settled Response) (f : Form) :
  isParsedOk outcome = true ->
  values (formAfter (onSettled outcome) f) = ([], [], [], []).
Proof.
  intros H. rewrite ContactFormFacts.onSettled_values.
  destruct outcome as [[[] [d|]]|]; try discriminate. reflexivity.
Qed.

End RoundFacts.

(** X16: a failed submission can be sent again as it is.  After a valid
    submission to a configured endpoint whose response is not a parsed
    success (a failure status, an unparseable body, a rejected [fetch]),
    the control is enabled again and submitting once more, without typing
    anything, sends the very same request. *)
Theorem X16_failed_submission_can_be_resent
  (formId : string) (f : ContactForm.Form)
  (outcome : ContactForm.Settled ContactForm.Response)
  (Hvalid : ContactForm.allValid f = true)
  (Hconfigured : formId <> ContactForm.SENTINEL)
  (Hfailed : FormOutcome.isParsedOk outcome = false) :
  let sent := ContactForm.formAfter (ContactForm.onSubmit formId) f in
  let back := ContactForm.formAfter (ContactForm.onSettled outcome) sent in
  ContactForm.submitDisabled back = false
  /\ ContactForm.effectsOf (ContactForm.onSubmit formId) back
     = ContactForm.effectsOf (ContactForm.onSubmit formId) f
  /\ ContactForm.networkRequests
       (ContactForm.effectsOf (ContactForm.onSubmit formId) back) = 1.
Proof.
  cbv zeta.
  set (sent := ContactForm.formAfter (ContactForm.onSubmit formId) f).
  set (back := ContactForm.formAfter (ContactForm.onSettled outcome) sent).
  assert (V : ContactForm.values back = ContactForm.values f).
  { unfold back. rewrite RoundFacts.onSettled_values_kept by assumption.
    apply ContactFormFacts.onSubmit_values. }
  assert (Vb : ContactForm.allValid back = true).
  { rewrite (RoundFacts.allValid_values back f V). exact Hvalid. }
  apply String.eqb_neq in Hconfigured.
  split; [apply ContactFormFacts.onSettled_enabled|].
  unfold ContactForm.effectsOf.
  rewrite !ContactFormFacts.onSubmit_valid by assumption.
  rewrite Hconfigured. simpl.
  rewrite !(RoundFacts.trimmed_values back f _ V). auto.
Qed.

Lemma X16_witness :
  ContactForm.allValid Examples.filledForm = true
  /\ Examples.configuredId <> ContactForm.SENTINEL
  /\ ContactForm.networkRequests
       (ContactForm.effectsOf (ContactForm.onSubmit Examples.configuredId)
          (ContactForm.formAfter (ContactForm.onSettled ContactForm.Rejected)
             (ContactForm.formAfter
                (ContactForm.onSubmit Examples.configuredId)
                Examples.filledForm))) = 1.
Proof.
  assert (N : Examples.configuredId <> ContactForm.SENTINEL) by discriminate.
  split; [reflexivity|]. split; [exact N|].
  exact (proj2 (proj2 (X16_failed_submission_can_be_resent
                         Examples.configuredId Examples.filledForm
                         ContactForm.Rejected eq_refl N eq_refl))).
Defined.

(** X17: a successful submission cannot be sent twice by accident.  After
    a response that is a parsed success the four fields are empty, so
    submitting again without typing flags all four fields, reports the
    aggregate error, and sends nothing. *)
Theorem X17_resubmission_after_success_is_rejected
  (formId : string) (f : ContactForm.Form)
  (outcome : ContactForm.Settled ContactForm.Response)
  (Hsuccess : FormOutcome.isParsedOk outcome = true) :
  let back := ContactForm.formAfter (ContactForm.onSettled outcome) f in
  let again := ContactForm.formAfter (ContactForm.onSubmit formId) back in
  let effects := ContactForm.effectsOf (ContactForm.onSubmit formId) back in
  (forall fld, ContactForm.fieldValid fld back = false
               /\ ContactForm.fieldError (ContactForm.field fld again) = true)
  /\ ContactForm.statusText again
     = Utf16.lit "Please fill in all fields correctly."
  /\ ContactForm.networkRequests effects = 0
  /\ ContactForm.mailtoActions effects = 0.
Proof.
  cbv zeta.
  set (back := ContactForm.formAfter (ContactForm.onSettled outcome) f).
  pose proof (RoundFacts.onSettled_values_cleared outcome f Hsuccess) as V.
  fold back in V.
  assert (Hinv : forall fld, ContactForm.fieldValid fld back = false).
  { unfold ContactForm.values in V. injection V as A B C D.
    intros []; unfold ContactForm.fieldValid; simpl;
      rewrite ?A, ?B, ?C, ?D; reflexivity. }
  pose proof (ContactFormFacts.invalid_field_not_allValid back
                ContactForm.Name (Hinv ContactForm.Name)) as NV.
  destruct (ContactFormFacts.onSubmit_invalid formId back NV)
    as (Hf & Ht & _ & _ & _ & He & _).
  destruct (ContactFormFacts.errorTimers_no_action back) as [Hm Hn].
  split.
  { intros fld. split; [apply Hinv|].
    destruct (Hf fld) as [_ E]. rewrite (Hinv fld) in E. exact E. }
  rewrite He. auto.
Qed.

Lemma X17_witness :
  FormOutcome.isParsedOk
    (ContactForm.Fulfilled
       (ContactForm.mkResponse true (ContactForm.Fulfilled ContactForm.DataFalsy)))
  = true
  /\ ContactForm.networkRequests
       (ContactForm.effectsOf (ContactForm.onSubmit Examples.configuredId)
          (ContactForm.formAfter
             (ContactForm.onSettled
                (ContactForm.Fulfilled
                   (ContactForm.mkResponse true
                      (ContactForm.Fulfilled ContactForm.DataFalsy))))
             Examples.filledForm)) = 0.
Proof.
  split; [reflexivity|].
  exact (proj1 (proj2 (proj2 (X17_resubmission_after_success_is_rejected
                  Examples.configuredId Examples.filledForm
                  (ContactForm.Fulfilled
                     (ContactForm.mkResponse true
                        (ContactForm.Fulfilled ContactForm.DataFalsy)))
                  eq_refl)))).
Defined.

(** X18: every way a request settles gives the button back its label and
    sets the status, with no timer and nothing sent.  The class of the
    status is the success class exactly for a parsed success and the error
    class otherwise.  The text is the success sentence after a parsed
    success and the network sentence when [fetch] rejects or the body does
    not parse.  On a failure status with a parsed body it is the server's
    [error] as a string when the body is truthy and has a truthy [error],
    the network sentence when that [error] cannot be turned into a string,
    and the generic sentence otherwise.  So the text is empty only when the
    server's [error] is truthy and turns into the empty string, as an empty
    array does. *)
Theorem X18_every_outcome_is_reported
  (outcome : ContactForm.Settled ContactForm.Response) (f : ContactForm.Form) :
  let f' := ContactForm.formAfter (ContactForm.onSettled outcome) f in
  ContactForm.submitLabel f' = Utf16.lit "Send message"
  /\ ContactForm.statusClass f'
     = (if FormOutcome.isParsedOk outcome
        then "form-status-message form-status-message--success"
        else "form-status-message form-status-message--error")
  /\ ContactForm.effectsOf (ContactForm.onSettled outcome) f = []
  /\ ContactForm.statusText f'
     = match outcome with
       | ContactForm.Fulfilled (ContactForm.mkResponse okFlag (ContactForm.Fulfilled d)) =>
           if okFlag then ContactForm.textSent
           else
             match d with
             | ContactForm.DataTruthy e =>
                 if ContactForm.isTruthy e
                 then match ContactForm.asText e with
                      | Some message => message
                      | None => ContactForm.textNetwork
                      end
                 else ContactForm.textGeneric
             | ContactForm.DataFalsy => ContactForm.textGeneric
             end
       | _ => ContactForm.textNetwork
       end
  /\ (ContactForm.statusText f' = [] ->
      exists e,
        outcome = ContactForm.Fulfilled
                    (ContactForm.mkResponse false
                       (ContactForm.Fulfilled (ContactForm.DataTruthy e)))
        /\ ContactForm.isTruthy e = true
        /\ ContactForm.asText e = Some []).
Proof.
  cbv zeta.
  destruct outcome as [[[] [[|[[] [message|]]]|]]|];
    (split; [reflexivity|]); (split; [reflexivity|]);
    (split; [reflexivity|]); (split; [reflexivity|]);
    try (intros H; vm_compute in H; discriminate H).
  intros H. vm_compute in H. subst message. eexists. repeat split.
Qed.

(** ** Clicks the smooth-scroll listener does not handle *)

Module ClickFacts.
Import DOM MobileMenu SmoothScroll.

Lemma onClick_cases (page : Page) (menu : Menu) (path : list Node) :
  onClick page menu path = ([], menu)
  \/ exists destination,
       onClick page menu path
       = ([PreventDefault; ScrollTo destination "smooth"],
          closeMobileMenu menu).
Proof.
  unfold onClick.
  destruct (closest path) as [anchor|]; [|auto].
  destruct (href anchor) as [targetHash|]; [|auto].
  destruct (_ || _); [auto|].
  destruct (document page !! JSString.slice1 targetHash); [|auto].
  right. eexists. reflexivity.
Qed.

Lemma closeMobileMenu_never_opens (m : Menu) :
  panelOpen (closeMobileMenu m) = true -> panelOpen m = true.
Proof.
  unfold panelOpen, closeMobileMenu.
  destruct (mobileMenuPanel m) as [p|] eqn:P, (hamburgerButton m) eqn:B;
    simpl; rewrite ?P; auto. discriminate.
Qed.

End ClickFacts.

(** X19: the click listener either handles a click in full or leaves it
    alone.  Its effects are nothing at all, with the menu untouched, or the
    default prevented together with one smooth scroll and the call of
    [closeMobileMenu]; it never prevents the default without scrolling and
    never opens the menu.  A click with no in-page anchor around it (no
    link, or links to other pages only) is left alone, and elements that are
    not in-page anchors are looked through on the way up. *)
Theorem X19_click_is_handled_in_full_or_not_at_all
  (page : SmoothScroll.Page) (menu : MobileMenu.Menu)
  (path : list SmoothScroll.Node) :
  (SmoothScroll.onClick page menu path = ([], menu)
   \/ exists destination,
        SmoothScroll.onClick page menu path
        = ([SmoothScroll.PreventDefault;
            SmoothScroll.ScrollTo destination "smooth"],
           MobileMenu.closeMobileMenu menu))
  /\ (SmoothScroll.defaultPrevented (fst (SmoothScroll.onClick page menu path))
      = match SmoothScroll.scrolls (fst (SmoothScroll.onClick page menu path)) with
        | [] => false
        | _ => true
        end)
  /\ (MobileMenu.panelOpen (snd (SmoothScroll.onClick page menu path)) = true ->
      MobileMenu.panelOpen menu = true)
  /\ (List.Forall (fun n => SmoothScroll.matchesSelector n = false) path ->
      SmoothScroll.onClick page menu path = ([], menu))
  /\ (forall n,
        SmoothScroll.matchesSelector n = false ->
        SmoothScroll.onClick page menu (n :: path)
        = SmoothScroll.onClick page menu path).
Proof.
  pose proof (ClickFacts.onClick_cases page menu path) as C.
  split; [exact C|].
  split; [destruct C as [-> | [d ->]]; reflexivity|].
  split.
  { destruct C as [-> | [d ->]]; simpl; [auto|].
    apply ClickFacts.closeMobileMenu_never_opens. }
  split.
  { intros H. unfold SmoothScroll.onClick.
    assert (E : SmoothScroll.closest path = None).
    { clear C. unfold SmoothScroll.closest.
      induction H as [|n path Hn _ IH]; simpl; [reflexivity|].
      rewrite Hn. exact IH. }
    rewrite E. reflexivity. }
  intros n Hn. unfold SmoothScroll.onClick, SmoothScroll.closest. simpl.
  rewrite Hn. reflexivity.
Qed.

(** ** What a submission never does *)

(** X20: whatever the form holds and whatever the form id is, a submission
    first prevents the page from navigating, triggers at most one action
    (a mailto click or a request, never both), sends no request while the
    form id is the sentinel and opens no mail client when it is not, and
    writes none of the four values.  It triggers exactly one action when
    the form is valid and the handler returns, and none otherwise; the
    handler fails to return only on the mailto path, when
    [encodeURIComponent] throws. *)
Theorem X20_submission_triggers_at_most_one_action
  (formId : string) (f : ContactForm.Form) :
  let effects := ContactForm.effectsOf (ContactForm.onSubmit formId) f in
  let completion := ContactForm.completionOf (ContactForm.onSubmit formId) f in
  hd_error effects = Some ContactForm.PreventDefault
  /\ ContactForm.mailtoActions effects + ContactForm.networkRequests effects
     = match completion with
       | ContactForm.Returned => if ContactForm.allValid f then 1 else 0
       | ContactForm.Threw _ => 0
       end
  /\ (completion = ContactForm.Returned
      \/ (completion = ContactForm.Threw "URIError"
          /\ ContactForm.allValid f = true
          /\ formId = ContactForm.SENTINEL
          /\ ContactForm.mailtoHref
               (ContactForm.trimmed ContactForm.Name f)
               (ContactForm.trimmed ContactForm.Email f)
               (ContactForm.trimmed ContactForm.Subject f)
               (ContactForm.trimmed ContactForm.Message f) = None))
  /\ (formId = ContactForm.SENTINEL -> ContactForm.networkRequests effects = 0)
  /\ (formId <> ContactForm.SENTINEL ->
      ContactForm.mailtoActions effects = 0
      /\ completion = ContactForm.Returned)
  /\ ContactForm.values
       (ContactForm.formAfter (ContactForm.onSubmit formId) f)
     = ContactForm.values f.
Proof.
  cbv zeta.
  split; [|split; [|split; [|split; [|split;
    [|apply ContactFormFacts.onSubmit_values]]]]];
    destruct (ContactForm.allValid f) eqn:V.
  - unfold ContactForm.effectsOf.
    rewrite ContactFormFacts.onSubmit_valid by assumption.
    destruct (String.eqb formId ContactForm.SENTINEL); [|reflexivity].
    destruct (ContactForm.mailtoHref _ _ _ _); reflexivity.
  - destruct (ContactFormFacts.onSubmit_invalid formId f V)
      as (_ & _ & _ & _ & _ & -> & _). reflexivity.
  - unfold ContactForm.effectsOf, ContactForm.completionOf.
    rewrite ContactFormFacts.onSubmit_valid by assumption.
    destruct (String.eqb formId ContactForm.SENTINEL); [|reflexivity].
    destruct (ContactForm.mailtoHref _ _ _ _); reflexivity.
  - destruct (ContactFormFacts.onSubmit_invalid formId f V)
      as (_ & _ & _ & _ & _ & -> & ->).
    destruct (ContactFormFacts.errorTimers_no_action f) as [Hm Hn].
    change (ContactForm.mailtoActions (ContactForm.errorTimers f)
            + ContactForm.networkRequests (ContactForm.errorTimers f) = 0).
    rewrite Hm, Hn. reflexivity.
  - unfold ContactForm.completionOf.
    rewrite ContactFormFacts.onSubmit_valid by assumption.
    destruct (String.eqb formId ContactForm.SENTINEL) eqn:E; [|left; reflexivity].
    apply String.eqb_eq in E.
    destruct (ContactForm.mailtoHref _ _ _ _); [left; reflexivity|].
    right. auto.
  - left. apply (ContactFormFacts.onSubmit_invalid formId f V).
  - intros ->. unfold ContactForm.effectsOf.
    rewrite ContactFormFacts.onSubmit_valid by assumption.
    rewrite String.eqb_refl.
    destruct (ContactForm.mailtoHref _ _ _ _); reflexivity.
  - intros _. destruct (ContactFormFacts.onSubmit_invalid formId f V)
      as (_ & _ & _ & _ & _ & -> & _).
    apply (ContactFormFacts.errorTimers_no_action f).
  - intros N%String.eqb_neq.
    unfold ContactForm.effectsOf, ContactForm.completionOf.
    rewrite ContactFormFacts.onSubmit_valid by assumption.
    rewrite N. split; reflexivity.
  - intros _. destruct (ContactFormFacts.onSubmit_invalid formId f V)
      as (_ & _ & _ & _ & _ & -> & ->).
    split; [|reflexivity].
    apply (ContactFormFacts.errorTimers_no_action f).
Qed.

(** ** The error indicator *)

Module IndicatorFacts.
Import ContactForm FormOutcome.

Lemma noFieldError_fields (f : Form) :
  noFieldError f ->
  nameField f = mkInput (value (nameField f)) false
  /\ emailField f = mkInput (value (emailField f)) false
  /\ subjectField f = mkInput (value (subjectField f)) false
  /\ messageField f = mkInput (value (messageField f)) false.
Proof.
  intros H.
  pose proof (H Name) as A. pose proof (H Email) as B.
  pose proof (H Subject) as C. pose proof (H Message) as D.
  simpl in A, B, C, D.
  destruct (nameField f), (emailField f), (subjectField f), (messageField f).
  simpl in *. subst. auto.
Qed.

End IndicatorFacts.

(** X21: the error indicator clears itself and can be replayed.  Take a
    form with no field flagged and at least one field invalid.  After the
    submission and after the timers it set have come due, no field is
    flagged, the values are as typed and the aggregate error status is
    still shown; the form is the one before the submission but for that
    status, so the same submission flags the same fields again. *)
Theorem X21_error_indicator_clears_and_replays
  (formId : string) (f : ContactForm.Form) (n : nat)
  (Hinvalid : ContactForm.allValid f = false)
  (Hclean : FormOutcome.noFieldError f) :
  let timers :=
    FormOutcome.timerEvents
      (ContactForm.effectsOf (ContactForm.onSubmit formId) f) in
  let settled :=
    ContactForm.mkForm
      (ContactForm.nameField f) (ContactForm.emailField f)
      (ContactForm.subjectField f) (ContactForm.messageField f)
      (Utf16.lit "Please fill in all fields correctly.")
      "form-status-message form-status-message--error"
      (ContactForm.submitDisabled f) (ContactForm.submitLabel f) in
  ContactForm.run formId (ContactForm.SubmitEvent :: timers)
    (ContactForm.mkPage f n)
  = Some (ContactForm.mkPage settled n)
  /\ FormOutcome.noFieldError settled
  /\ ContactForm.onSubmit formId settled = ContactForm.onSubmit formId f.
Proof.
  cbv zeta.
  destruct (IndicatorFacts.noFieldError_fields f Hclean) as (A & B & C & D).
  split; [|split].
  - cbn [ContactForm.run ContactForm.step ContactForm.form ContactForm.inFlight].
    pose proof (ContactFormFacts.onSubmit_invalid formId f Hinvalid) as H.
    cbv zeta in H.
    remember (ContactForm.formAfter (ContactForm.onSubmit formId) f) as f1
      eqn:Ef1.
    destruct H as (Hf & Ht & Hc & Hd & Hl & He & _).
    rewrite He. clear He Ef1.
    destruct (ContactFormFacts.errorTimers_no_action f) as [_ Hn].
    change (ContactForm.networkRequests
              (ContactForm.PreventDefault :: ContactForm.errorTimers f))
      with (ContactForm.networkRequests (ContactForm.errorTimers f)).
    rewrite Hn, Nat.add_0_r. clear Hn.
    unfold ContactForm.errorTimers. cbn [flat_map].
    pose proof (Hf ContactForm.Name) as [V1 E1].
    pose proof (Hf ContactForm.Email) as [V2 E2].
    pose proof (Hf ContactForm.Subject) as [V3 E3].
    pose proof (Hf ContactForm.Message) as [V4 E4].
    rewrite (Hclean ContactForm.Name) in E1.
    rewrite (Hclean ContactForm.Email) in E2.
    rewrite (Hclean ContactForm.Subject) in E3.
    rewrite (Hclean ContactForm.Message) in E4.
    clear Hf Hinvalid Hclean.
    set (b1 := ContactForm.fieldValid ContactForm.Name f) in *.
    set (b2 := ContactForm.fieldValid ContactForm.Email f) in *.
    set (b3 := ContactForm.fieldValid ContactForm.Subject f) in *.
    set (b4 := ContactForm.fieldValid ContactForm.Message f) in *.
    clearbody b1 b2 b3 b4.
    rewrite A, B, C, D.
    destruct f1 as [[v1 e1] [v2 e2] [v3 e3] [v4 e4] st sc sd sl].
    cbn [ContactForm.field ContactForm.value ContactForm.fieldError
         ContactForm.nameField ContactForm.emailField ContactForm.subjectField
         ContactForm.messageField ContactForm.statusText
         ContactForm.statusClass ContactForm.submitDisabled
         ContactForm.submitLabel] in *.
    subst. destruct b1, b2, b3, b4; reflexivity.
  - intros fld.
    destruct fld;
      [ exact (Hclean ContactForm.Name) | exact (Hclean ContactForm.Email)
      | exact (Hclean ContactForm.Subject) | exact (Hclean ContactForm.Message) ].
  - reflexivity.
Qed.

Lemma X21_witness :
  ContactForm.allValid Examples.halfFilledForm = false
  /\ FormOutcome.noFieldError Examples.halfFilledForm
  /\ ContactForm.run Examples.configuredId
       [ContactForm.SubmitEvent;
        ContactForm.ErrorTimerDue ContactForm.Email;
        ContactForm.ErrorTimerDue ContactForm.Subject]
       (ContactForm.mkPage Examples.halfFilledForm 0)
     = Some (ContactForm.mkPage
               (ContactForm.mkForm
                  (ContactForm.mkInput (Utf16.lit "Ada") false)
                  (ContactForm.mkInput (Utf16.lit "ada@example") false)
                  (ContactForm.mkInput [] false)
                  (ContactForm.mkInput (Utf16.lit "Nice site.") false)
                  (Utf16.lit "Please fill in all fields correctly.")
                  "form-status-message form-status-message--error"
                  false (Utf16.lit "Send message")) 0).
Proof.
  assert (H : FormOutcome.noFieldError Examples.halfFilledForm)
    by (intros []; reflexivity).
  split; [reflexivity|]. split; [exact H|].
  exact (proj1 (X21_error_indicator_clears_and_replays
                  Examples.configuredId Examples.halfFilledForm 0 eq_refl H)).
Defined.

